(** * VideoUploadForm: the upload client and the status poller

    A shallow embedding of [frontend/src/components/VideoUploadForm.jsx].
    The component is a React function component; its behaviour is that of
    its event handlers ([handleUpload], [handleFileChange], [handleDrop],
    the interval callback of the [useEffect] hook) run one at a time by
    the browser's event loop.

    The embedding keeps
    - the hook state of the component ([useState] cells and the
      [uploadInProgress] ref) in a record [Comp];
    - what the handlers leave behind in the browser in a record [Runtime]:
      the table of active intervals, the promises of the calls to
      [uploadVideo] and [getTaskStatus] that are still pending, and a log
      of the effects performed, in program order;
    - every handler as a computation in a small state monad [M], an
      [async] function being cut at its [await] into the part that runs
      to the call and the two continuations (resolved, rejected);
    - the event loop as an executable function [step]. *)

From Stdlib Require Import ZArith Lia.
From stdpp Require Import base option list strings pretty gmap.

(** ** Values exchanged with the browser and the backend *)

(** A [File] object of the file picker: only [name] and [size] are read. *)
Module File.
Record t := mk { name : string; size : Z }.
End File.

(** The object [uploadVideo] resolves with. *)
Module UploadRes.
Record t := mk { task_id : string }.
End UploadRes.

(** The object [getTaskStatus] resolves with. A field that is absent
    reads as [undefined], here [None]. *)
Module StatusRes.
Record t := mk {
  status : option string;
  progress : option Z;
  current_operation : option string;
  error : option string
}.
End StatusRes.

(** The value a rejected request throws: [err.response?.status],
    [err.response?.data?.detail] and [err.message] are read. *)
Module Err.
Record Data := mkData { detail : option string }.
Record Response := mkResponse { status : option Z; data : option Data }.
Record t := mk { response : option Response; message : option string }.
End Err.

(** [a || b] on an optional string: [undefined] and the empty string are
    falsy. *)
Definition or_str (a : option string) (b : string) : string :=
  match a with
  | Some s => if decide (s = "") then b else s
  | None => b
  end.

(** [a || b] on an optional number: [undefined] and [0] are falsy. *)
Definition or_num (a : option Z) (b : Z) : Z :=
  match a with
  | Some n => if decide (n = 0%Z) then b else n
  | None => b
  end.

(** [err.response?.status] *)
Definition err_status (err : Err.t) : option Z :=
  r ← Err.response err; Err.status r.

(** [err.response?.data?.detail] *)
Definition err_detail (err : Err.t) : option string :=
  r ← Err.response err; d ← Err.data r; Err.detail d.

(** ** The component's hook state *)

#[local] Set Primitive Projections.

Record Comp := mkComp {
  file : option File.t;
  dragOver : bool;
  name : string;
  description : string;
  taskId : string;
  progress : Z;
  statusText : string;
  error : string;
  uploadWarning : string;
  uploadProgress : Z;
  uploadInProgress : bool          (* uploadInProgress.current *)
}.

(** The effects a handler performs that the claims speak about, logged in
    program order. *)
Inductive Action :=
  | CallUploadVideo (p : nat) (f : File.t) (name description : string)
  | CallGetTaskStatus (p : nat) (taskId : string)
  | SetInterval (i : positive) (taskId : string)
  | ClearInterval (i : positive)
  | WriteUploadInProgress (b : bool)
  | SetError (msg : string)
  | SetUploadWarning (msg : string).

(** Interval handles are the positive integers [setInterval] returns, so
    that [if (interval)] only tests whether the variable was assigned. *)
Record Runtime := mkRuntime {
  comp : Comp;
  mounted : bool;
  effect_deps : string;                 (* taskId the effect last ran with *)
  effect_interval : option positive;    (* [interval] of that effect run *)
  intervals : gmap positive string;     (* active intervals, with the
                                           [taskId] their callback closes over *)
  next_handle : positive;
  uploads : gset nat;                   (* pending [uploadVideo] promises *)
  queries : gmap nat positive;          (* pending [getTaskStatus] promises,
                                           with the [interval] their callback
                                           closes over *)
  next_promise : nat;
  log : list Action
}.

#[local] Unset Primitive Projections.

Definition initial_comp : Comp :=
  {| file := None; dragOver := false; name := ""; description := "";
     taskId := ""; progress := 0; statusText := ""; error := "";
     uploadWarning := ""; uploadProgress := 0; uploadInProgress := false |}.

(** The component after its first render: the effect ran with the empty
    [taskId] and started no interval. *)
Definition initial : Runtime :=
  {| comp := initial_comp; mounted := true; effect_deps := "";
     effect_interval := None; intervals := ∅; next_handle := 1%positive;
     uploads := ∅; queries := ∅; next_promise := 0; log := [] |}.

(** ** The state monad of the handlers *)

Definition M (A : Type) : Type := Runtime → A * Runtime.

#[global] Instance M_ret : MRet M := λ A a st, (a, st).
#[global] Instance M_bind : MBind M :=
  λ A B f m st, let '(a, st') := m st in f a st'.

Definition exec {A} (m : M A) (st : Runtime) : Runtime := snd (m st).

Definition gets {A} (f : Runtime → A) : M A := λ st, (f st, st).
Definition skip : M unit := mret ().

Definition modify_comp (f : Comp → Comp) : M unit := λ st,
  ((), {| comp := f (comp st); mounted := mounted st;
          effect_deps := effect_deps st;
          effect_interval := effect_interval st;
          intervals := intervals st; next_handle := next_handle st;
          uploads := uploads st; queries := queries st;
          next_promise := next_promise st; log := log st |}).

Definition emit (a : Action) : M unit := λ st,
  ((), {| comp := comp st; mounted := mounted st;
          effect_deps := effect_deps st;
          effect_interval := effect_interval st;
          intervals := intervals st; next_handle := next_handle st;
          uploads := uploads st; queries := queries st;
          next_promise := next_promise st; log := log st ++ [a] |}).

(** *** The [useState] setters and the ref *)

Definition setFile (v : option File.t) : M unit :=
  modify_comp (λ c, mkComp v (dragOver c) (name c) (description c) (taskId c)
    (progress c) (statusText c) (error c) (uploadWarning c)
    (uploadProgress c) (uploadInProgress c)).
Definition setDragOver (v : bool) : M unit :=
  modify_comp (λ c, mkComp (file c) v (name c) (description c) (taskId c)
    (progress c) (statusText c) (error c) (uploadWarning c)
    (uploadProgress c) (uploadInProgress c)).
Definition setName (v : string) : M unit :=
  modify_comp (λ c, mkComp (file c) (dragOver c) v (description c) (taskId c)
    (progress c) (statusText c) (error c) (uploadWarning c)
    (uploadProgress c) (uploadInProgress c)).
Definition setDescription (v : string) : M unit :=
  modify_comp (λ c, mkComp (file c) (dragOver c) (name c) v (taskId c)
    (progress c) (statusText c) (error c) (uploadWarning c)
    (uploadProgress c) (uploadInProgress c)).
Definition setTaskId (v : string) : M unit :=
  modify_comp (λ c, mkComp (file c) (dragOver c) (name c) (description c) v
    (progress c) (statusText c) (error c) (uploadWarning c)
    (uploadProgress c) (uploadInProgress c)).
Definition setProgress (v : Z) : M unit :=
  modify_comp (λ c, mkComp (file c) (dragOver c) (name c) (description c)
    (taskId c) v (statusText c) (error c) (uploadWarning c)
    (uploadProgress c) (uploadInProgress c)).
Definition setStatusText (v : string) : M unit :=
  modify_comp (λ c, mkComp (file c) (dragOver c) (name c) (description c)
    (taskId c) (progress c) v (error c) (uploadWarning c)
    (uploadProgress c) (uploadInProgress c)).
Definition setError (v : string) : M unit :=
  emit (SetError v);;
  modify_comp (λ c, mkComp (file c) (dragOver c) (name c) (description c)
    (taskId c) (progress c) (statusText c) v (uploadWarning c)
    (uploadProgress c) (uploadInProgress c)).
Definition setUploadWarning (v : string) : M unit :=
  emit (SetUploadWarning v);;
  modify_comp (λ c, mkComp (file c) (dragOver c) (name c) (description c)
    (taskId c) (progress c) (statusText c) (error c) v
    (uploadProgress c) (uploadInProgress c)).
Definition setUploadProgress (v : Z) : M unit :=
  modify_comp (λ c, mkComp (file c) (dragOver c) (name c) (description c)
    (taskId c) (progress c) (statusText c) (error c) (uploadWarning c)
    v (uploadInProgress c)).
(** [uploadInProgress.current = b] *)
Definition set_uploadInProgress (b : bool) : M unit :=
  emit (WriteUploadInProgress b);;
  modify_comp (λ c, mkComp (file c) (dragOver c) (name c) (description c)
    (taskId c) (progress c) (statusText c) (error c) (uploadWarning c)
    (uploadProgress c) b).

(** *** Timers and requests *)

(** [setInterval(callback, 2000)]: a fresh handle, entered in the table of
    active intervals with the [taskId] the callback closes over. *)
Definition setInterval (tid : string) : M positive := λ st,
  let i := next_handle st in
  (i, {| comp := comp st; mounted := mounted st;
         effect_deps := effect_deps st;
         effect_interval := effect_interval st;
         intervals := <[i := tid]> (intervals st);
         next_handle := Pos.succ i;
         uploads := uploads st; queries := queries st;
         next_promise := next_promise st;
         log := log st ++ [SetInterval i tid] |}).

(** [clearInterval(i)]: the interval never fires again; clearing a handle
    that is not active does nothing. *)
Definition clearInterval (i : positive) : M unit := λ st,
  ((), {| comp := comp st; mounted := mounted st;
          effect_deps := effect_deps st;
          effect_interval := effect_interval st;
          intervals := delete i (intervals st);
          next_handle := next_handle st;
          uploads := uploads st; queries := queries st;
          next_promise := next_promise st;
          log := log st ++ [ClearInterval i] |}).

(** [uploadVideo(file, name, description, onProgress)] up to the [await]:
    the request is sent and its promise is pending. *)
Definition uploadVideo (f : File.t) (n d : string) : M nat := λ st,
  let p := next_promise st in
  (p, {| comp := comp st; mounted := mounted st;
         effect_deps := effect_deps st;
         effect_interval := effect_interval st;
         intervals := intervals st; next_handle := next_handle st;
         uploads := {[p]} ∪ uploads st; queries := queries st;
         next_promise := S p;
         log := log st ++ [CallUploadVideo p f n d] |}).

(** [getTaskStatus(taskId)] up to the [await], called from the callback of
    interval [i]. *)
Definition getTaskStatus (tid : string) (i : positive) : M nat := λ st,
  let p := next_promise st in
  (p, {| comp := comp st; mounted := mounted st;
         effect_deps := effect_deps st;
         effect_interval := effect_interval st;
         intervals := intervals st; next_handle := next_handle st;
         uploads := uploads st; queries := <[p := i]> (queries st);
         next_promise := S p;
         log := log st ++ [CallGetTaskStatus p tid] |}).

(** The promise [p] has settled: its continuation is about to run. *)
Definition settle_upload (p : nat) : M unit := λ st,
  ((), {| comp := comp st; mounted := mounted st;
          effect_deps := effect_deps st;
          effect_interval := effect_interval st;
          intervals := intervals st; next_handle := next_handle st;
          uploads := uploads st ∖ {[p]}; queries := queries st;
          next_promise := next_promise st; log := log st |}).

Definition settle_query (p : nat) : M unit := λ st,
  ((), {| comp := comp st; mounted := mounted st;
          effect_deps := effect_deps st;
          effect_interval := effect_interval st;
          intervals := intervals st; next_handle := next_handle st;
          uploads := uploads st; queries := delete p (queries st);
          next_promise := next_promise st; log := log st |}).

Definition set_mounted (b : bool) : M unit := λ st,
  ((), {| comp := comp st; mounted := b;
          effect_deps := effect_deps st;
          effect_interval := effect_interval st;
          intervals := intervals st; next_handle := next_handle st;
          uploads := uploads st; queries := queries st;
          next_promise := next_promise st; log := log st |}).

(** The effect instance that is now live: the [taskId] it ran with and its
    [interval] variable. *)
Definition set_effect (deps : string) (i : option positive) : M unit := λ st,
  ((), {| comp := comp st; mounted := mounted st;
          effect_deps := deps; effect_interval := i;
          intervals := intervals st; next_handle := next_handle st;
          uploads := uploads st; queries := queries st;
          next_promise := next_promise st; log := log st |}).

(** ** The handlers *)

Section Component.

(** [t(key, fallback)] of the [useTranslation] hook, whose source is not
    part of the component: any function of the key and the fallback. The
    hook is taken to hand out the same function at every render, so that
    of the dependencies [[taskId, t]] of the effect only [taskId]
    changes. *)
Variable t : string → string → string.

(** [handleUpload], from the submit event to the [await]. A return
    before the call leaves no promise behind. *)
Definition handleUpload : M unit :=
  f ← gets (file ∘ comp);
  match f with
  | None => setError (t "pleaseSelectFile" "Please select a video file.")
  | Some f =>
    if decide (File.size f > 15 * 1024 * 1024 * 1024)%Z then
      setError (t "fileTooLarge" "File size exceeds the maximum allowed (15 GB).")
    else
      busy ← gets (uploadInProgress ∘ comp);
      if busy : bool then
        setUploadWarning (t "uploadInProgress" "Upload already in progress, please wait.")
      else
        set_uploadInProgress true;;
        setStatusText (t "startingUpload" "Starting upload...");;
        setProgress 0;;
        setUploadProgress 0;;
        n ← gets (name ∘ comp);
        d ← gets (description ∘ comp);
        _ ← uploadVideo f n d;
        skip
  end.

(** The progress callback handed to [uploadVideo]; [percentCompleted] is
    the rounded quotient the callback computes from the event. *)
Definition handleUpload_onProgress (percentCompleted : Z) : M unit :=
  setUploadProgress percentCompleted;;
  setStatusText (t "uploadingProgress"
                   ("Uploading: " +:+ pretty percentCompleted +:+ "%")).

(** [handleUpload] after the [await], the promise resolved with [res]. *)
Definition handleUpload_then (res : UploadRes.t) : M unit :=
  setTaskId (UploadRes.task_id res);;
  setStatusText (t "processingVideo" "Processing video...").

(** [handleUpload], the [catch] block, the promise rejected with [err]. *)
Definition handleUpload_catch (err : Err.t) : M unit :=
  set_uploadInProgress false;;
  if decide (err_status err = Some 507%Z) then
    setError (t "noSpaceLeft" "Server disk space is full. Please try again later or contact administrator.")
  else if decide (err_status err = Some 413%Z) then
    setError (t "fileTooLarge" "File size is too large for server to process.")
  else
    setError (or_str (err_detail err)
                (or_str (Err.message err) (t "uploadFailed" "Upload failed."))).

(** The interval callback of interval [i], whose closure holds [tid],
    from the tick to the [await]. *)
Definition poll (i : positive) (tid : string) : M unit :=
  _ ← getTaskStatus tid i;
  skip.

(** The interval callback after the [await], the promise resolved with
    [statusRes]. *)
Definition poll_then (i : positive) (statusRes : StatusRes.t) : M unit :=
  setProgress (or_num (StatusRes.progress statusRes) 0);;
  setStatusText (or_str (StatusRes.current_operation statusRes) "");;
  if decide (StatusRes.status statusRes = Some "completed") then
    clearInterval i;;
    set_uploadInProgress false
  else if decide (StatusRes.status statusRes = Some "failed") then
    clearInterval i;;
    set_uploadInProgress false;;
    setError (t "processingFailed" "Processing failed" +:+ ": "
              +:+ or_str (StatusRes.error statusRes) "")
  else skip.

(** The interval callback, the [catch] block. *)
Definition poll_catch (i : positive) (err : Err.t) : M unit :=
  clearInterval i;;
  set_uploadInProgress false;;
  setError (or_str (err_detail err)
              (or_str (Err.message err)
                 (t "statusCheckFailed" "Failed to check upload status."))).

(** [handleFileChange], with [e.target.files]. *)
Definition handleFileChange (files : list File.t) : M unit :=
  match files with
  | selectedFile :: _ =>
    setFile (Some selectedFile);;
    if decide (File.size selectedFile > 1024 * 1024 * 1024)%Z then
      setUploadWarning (t "largeFileWarning" "You're uploading a large file. It might take a while to process.")
    else setUploadWarning ""
  | [] => skip
  end.

Definition handleDragOver : M unit := setDragOver true.
Definition handleDragLeave : M unit := setDragOver false.

(** [handleDrop], with [e.dataTransfer.files]. *)
Definition handleDrop (files : option (list File.t)) : M unit :=
  setDragOver false;;
  match files with
  | Some (droppedFile :: _) =>
    setFile (Some droppedFile);;
    if decide (File.size droppedFile > 1024 * 1024 * 1024)%Z then
      setUploadWarning (t "largeFileWarning" "You're uploading a large file. It might take a while to process.")
    else setUploadWarning ""
  | _ => skip
  end.

(** [disabled] of the submit button, as the render computes it. *)
Definition submit_disabled (c : Comp) : bool :=
  uploadInProgress c || bool_decide (file c = None) || bool_decide (name c = "").

(** *** The polling effect *)

(** The function the effect returns: [if (interval) clearInterval(interval)]. *)
Definition effect_cleanup : M unit :=
  i ← gets effect_interval;
  match i with
  | Some i => clearInterval i
  | None => skip
  end.

(** The body of the effect: [interval] stays unassigned for an empty
    [taskId]. *)
Definition effect_body : M unit :=
  tid ← gets (taskId ∘ comp);
  if decide (tid = "") then set_effect tid None
  else
    i ← setInterval tid;
    set_effect tid (Some i).

(** What React does with the effect after a render: when the dependency
    [taskId] differs from the one of the last run, the old instance is
    cleaned up and the body runs again. *)
Definition useEffect : M unit :=
  m ← gets mounted;
  tid ← gets (taskId ∘ comp);
  deps ← gets effect_deps;
  if m && bool_decide (tid ≠ deps) then effect_cleanup;; effect_body
  else skip.

(** Tearing the component down runs the cleanup of the live effect. *)
Definition unmount : M unit :=
  set_mounted false;;
  effect_cleanup.

(** ** The event loop *)

Inductive Event :=
  | EvFileChange (files : list File.t)
  | EvDragOver
  | EvDragLeave
  | EvDrop (files : option (list File.t))
  | EvNameChange (v : string)
  | EvDescriptionChange (v : string)
  | EvSubmit
  | EvCloseAlert
  | EvUploadProgress (p : nat) (percentCompleted : Z)
  | EvUploadResolved (p : nat) (res : UploadRes.t)
  | EvUploadRejected (p : nat) (err : Err.t)
  | EvTick (i : positive)
  | EvStatusResolved (p : nat) (statusRes : StatusRes.t)
  | EvStatusRejected (p : nat) (err : Err.t)
  | EvUnmount.

(** User events reach a mounted component; a progress event or a
    settlement needs its pending promise; only an active interval
    fires. *)
Definition enabled (st : Runtime) (ev : Event) : bool :=
  match ev with
  | EvFileChange _ | EvDragOver | EvDragLeave | EvDrop _
  | EvNameChange _ | EvDescriptionChange _ | EvSubmit | EvCloseAlert
  | EvUnmount => mounted st
  | EvUploadProgress p _ | EvUploadResolved p _ | EvUploadRejected p _ =>
    bool_decide (p ∈ uploads st)
  | EvTick i => bool_decide (is_Some (intervals st !! i))
  | EvStatusResolved p _ | EvStatusRejected p _ =>
    bool_decide (is_Some (queries st !! p))
  end.

Definition handler (ev : Event) : M unit :=
  match ev with
  | EvFileChange files => handleFileChange files
  | EvDragOver => handleDragOver
  | EvDragLeave => handleDragLeave
  | EvDrop files => handleDrop files
  | EvNameChange v => setName v
  | EvDescriptionChange v => setDescription v
  | EvSubmit => handleUpload
  | EvCloseAlert => setError ""
  | EvUploadProgress _ pc => handleUpload_onProgress pc
  | EvUploadResolved p res => settle_upload p;; handleUpload_then res
  | EvUploadRejected p err => settle_upload p;; handleUpload_catch err
  | EvTick i =>
    tid ← gets (λ st, intervals st !! i);
    match tid with
    | Some tid => poll i tid
    | None => skip
    end
  | EvStatusResolved p statusRes =>
    i ← gets (λ st, queries st !! p);
    match i with
    | Some i => settle_query p;; poll_then i statusRes
    | None => skip
    end
  | EvStatusRejected p err =>
    i ← gets (λ st, queries st !! p);
    match i with
    | Some i => settle_query p;; poll_catch i err
    | None => skip
    end
  | EvUnmount => unmount
  end.

(** One turn of the event loop: the handler of the event, then the
    render with its effect. [None] when the event cannot occur. *)
Definition step (st : Runtime) (ev : Event) : option Runtime :=
  if enabled st ev then Some (exec (handler ev;; useEffect) st) else None.

Fixpoint run (st : Runtime) (evs : list Event) : option Runtime :=
  match evs with
  | [] => Some st
  | ev :: evs => st' ← step st ev; run st' evs
  end.

Definition reachable (st : Runtime) : Prop :=
  ∃ evs, run initial evs = Some st.

End Component.

(** ** Observations on a state and on the log *)

(** The requests sent to the backend, in order. *)
Definition is_call (a : Action) : bool :=
  match a with
  | CallUploadVideo _ _ _ _ | CallGetTaskStatus _ _ => true
  | _ => false
  end.

Definition net_calls (l : list Action) : list Action := List.filter is_call l.

(** The status queries sent for the identifier [tid]. *)
Definition is_query_of (tid : string) (a : Action) : bool :=
  match a with
  | CallGetTaskStatus _ tid' => bool_decide (tid' = tid)
  | _ => false
  end.

Definition queries_of (tid : string) (l : list Action) : list Action :=
  List.filter (is_query_of tid) l.

Definition is_query (a : Action) : bool :=
  match a with
  | CallGetTaskStatus _ _ => true
  | _ => false
  end.

Definition status_calls (l : list Action) : list Action := List.filter is_query l.

(** [s.includes(sub)] *)
Fixpoint includes (sub s : string) : bool :=
  String.prefix sub s ||
  match s with
  | EmptyString => false
  | String _ s' => includes sub s'
  end.

(** A submission is rejected locally when all the handler did was to
    surface an error: one [setError], no request sent, no promise left
    pending, the busy flag untouched. *)
Definition rejected_locally (t : string → string → string) (st : Runtime) : Prop :=
  ∃ msg,
    log (exec (handleUpload t) st) = log st ++ [SetError msg] ∧
    error (comp (exec (handleUpload t) st)) = msg ∧
    uploads (exec (handleUpload t) st) = uploads st ∧
    next_promise (exec (handleUpload t) st) = next_promise st ∧
    uploadInProgress (comp (exec (handleUpload t) st))
      = uploadInProgress (comp st).

(** A submission is rejected with the busy signal when all the handler
    did was to raise the warning that an upload is in progress. *)
Definition rejected_busy (t : string → string → string) (st : Runtime) : Prop :=
  log (exec (handleUpload t) st)
    = log st ++ [SetUploadWarning (t "uploadInProgress" "Upload already in progress, please wait.")] ∧
  uploadWarning (comp (exec (handleUpload t) st))
    = t "uploadInProgress" "Upload already in progress, please wait." ∧
  error (comp (exec (handleUpload t) st)) = error (comp st) ∧
  uploads (exec (handleUpload t) st) = uploads st ∧
  next_promise (exec (handleUpload t) st) = next_promise st.

(** Along the run of [evs] from [st] the tracked [taskId] is never [a]. *)
Fixpoint never_tracks (t : string → string → string) (a : string)
    (st : Runtime) (evs : list Event) : Prop :=
  taskId (comp st) ≠ a ∧
  match evs with
  | [] => True
  | ev :: evs =>
    match step t st ev with
    | Some st' => never_tracks t a st' evs
    | None => True
    end
  end.


(** ** Invariants of the event loop *)

(** The table of active intervals holds at most the interval of the live
    effect instance, with the [taskId] that instance ran with, and only
    while the component is mounted; handles in use are below the next
    fresh one. *)
Record timers_wf (st : Runtime) : Prop := {
  wf_interval : ∀ i tid, intervals st !! i = Some tid →
    mounted st = true ∧ effect_interval st = Some i ∧ tid = effect_deps st;
  wf_effect_fresh : ∀ i, effect_interval st = Some i →
    (i < next_handle st)%positive;
  wf_query_fresh : ∀ p i, queries st !! p = Some i →
    (i < next_handle st)%positive
}.

(** Between two turns of the event loop the effect of a mounted component
    has run with the current [taskId]. *)
Definition rendered (st : Runtime) : Prop :=
  mounted st = true → effect_deps st = taskId (comp st).

Definition settled (st : Runtime) : Prop := timers_wf st ∧ rendered st.

(** The life cycle of an upload, read off the promises that are pending:
    nothing is on its way; one upload is in flight; the upload was
    accepted and no status query is pending; one status query is pending,
    sent by the interval of the live effect. Outside [LcIdle] the busy
    flag is set. *)
Inductive lifecycle (st : Runtime) : Prop :=
  | LcIdle :
      uploads st = ∅ → queries st = ∅ → intervals st = ∅ → lifecycle st
  | LcUploading (p : nat) :
      uploadInProgress (comp st) = true →
      uploads st = {[p]} → queries st = ∅ → intervals st = ∅ → lifecycle st
  | LcProcessing :
      uploadInProgress (comp st) = true →
      uploads st = ∅ → queries st = ∅ → lifecycle st
  | LcQuerying (p : nat) (i : positive) :
      uploadInProgress (comp st) = true →
      uploads st = ∅ → queries st = {[p := i]} →
      effect_interval st = Some i → lifecycle st.

(** When a handler has changed the [taskId] of a mounted component, the
    effect that is about to run finds the upload just accepted. *)
Definition accepted_or_rendered (st : Runtime) : Prop :=
  mounted st = true → taskId (comp st) ≠ effect_deps st →
  uploadInProgress (comp st) = true ∧ uploads st = ∅ ∧ queries st = ∅ ∧
  intervals st = ∅.

(** The event comes when the backend has answered: an interval fires
    only when no status query is pending. *)
Definition in_time (st : Runtime) (ev : Event) : Prop :=
  match ev with
  | EvTick _ => queries st = ∅
  | _ => True
  end.

(** The status query a turn of the event loop sends: the one of the
    callback of the interval that fires. *)
Definition tick_calls (st : Runtime) (ev : Event) : list Action :=
  match ev with
  | EvTick i =>
    match intervals st !! i with
    | Some tid => [CallGetTaskStatus (next_promise st) tid]
    | None => []
    end
  | _ => []
  end.

(** Every tick of the run of [evs] from [st] comes when no status query
    is pending: the backend answers a query before the interval fires
    again. *)
Fixpoint answered_in_time (t : string → string → string)
    (st : Runtime) (evs : list Event) : Prop :=
  match evs with
  | [] => True
  | ev :: evs =>
    in_time st ev ∧
    match step t st ev with
    | Some st' => answered_in_time t st' evs
    | None => True
    end
  end.

(** ** What the render shows *)

(** The bar of the transfer:
    [uploadInProgress.current && uploadProgress > 0 && uploadProgress < 100]. *)
Definition show_upload_progress (c : Comp) : bool :=
  uploadInProgress c && bool_decide (uploadProgress c > 0)%Z
  && bool_decide (uploadProgress c < 100)%Z.

(** The panel of the processing:
    [taskId || (uploadInProgress.current && uploadProgress === 100)]. *)
Definition show_processing (c : Comp) : bool :=
  negb (bool_decide (taskId c = ""))
  || (uploadInProgress c && bool_decide (uploadProgress c = 100%Z)).

(** [open] of the alert: [!!error]. *)
Definition alert_open (c : Comp) : bool := negb (bool_decide (error c = "")).

(** ** The ways an upload ends *)

(** The continuations that report a failure: the [catch] of
    [handleUpload], the [catch] of the interval callback, and the
    callback on the answer "failed". *)
Inductive failure (t : string → string → string) : M unit → Prop :=
  | FailUpload (err : Err.t) : failure t (handleUpload_catch t err)
  | FailQuery (i : positive) (err : Err.t) : failure t (poll_catch t i err)
  | FailTask (i : positive) (res : StatusRes.t) :
      StatusRes.status res = Some "failed" → failure t (poll_then t i res).

(** The continuations that end the life cycle of an upload: a failure, or
    the callback on the answer "completed". *)
Inductive terminal (t : string → string → string) : M unit → Prop :=
  | EndFailure (m : M unit) : failure t m → terminal t m
  | EndCompleted (i : positive) (res : StatusRes.t) :
      StatusRes.status res = Some "completed" → terminal t (poll_then t i res).

(** Every active interval polls a task that has a name. *)
Definition polls_named (st : Runtime) : Prop :=
  ∀ i tid, intervals st !! i = Some tid → tid ≠ "".

(** The events whose handler writes [uploadWarning]: a selection of
    files and a submission. *)
Definition writes_warning (ev : Event) : bool :=
  match ev with
  | EvFileChange _ | EvDrop _ | EvSubmit => true
  | _ => false
  end.

(** ** Scenarios *)

Module Scenario.

(** The translation that returns the fallback. *)
Definition t : string → string → string := λ _ fallback, fallback.

Definition clip : File.t := File.mk "clip.mp4" 1048576.
Definition huge : File.t := File.mk "huge.mkv" (16 * 1024 * 1024 * 1024).

Definition completed : StatusRes.t :=
  StatusRes.mk (Some "completed") (Some 100%Z) None None.
Definition completed_bare : StatusRes.t :=
  StatusRes.mk (Some "completed") None None None.
Definition failed : StatusRes.t :=
  StatusRes.mk (Some "failed") None None (Some "disk full").
Definition transcoding : StatusRes.t :=
  StatusRes.mk (Some "processing") (Some 40%Z) (Some "transcoding") None.
Definition bare : StatusRes.t := StatusRes.mk None None None None.

Definition network_error : Err.t := Err.mk None (Some "Network Error").
Definition storage_full : Err.t :=
  Err.mk (Some (Err.mkResponse (Some 507%Z)
                  (Some (Err.mkData (Some "quota exceeded")))))
         (Some "Request failed with status code 507").

Definition from_initial (evs : list Event) : Runtime :=
  default initial (run t initial evs).

(** A file is chosen, the name is left empty. *)
Definition unnamed : Runtime := from_initial [EvFileChange [clip]].

(** The upload is on its way. *)
Definition uploading : Runtime :=
  from_initial [EvFileChange [clip]; EvNameChange "holiday"; EvSubmit].

(** The upload is on its way and a file over the bound is chosen. *)
Definition uploading_huge : Runtime :=
  from_initial [EvFileChange [clip]; EvNameChange "holiday"; EvSubmit;
                EvFileChange [huge]].

(** The file over the bound is chosen, nothing is on its way. *)
Definition filled_huge : Runtime :=
  from_initial [EvFileChange [huge]; EvNameChange "holiday"].

(** The backend accepted the upload as task "abc123"; interval 1 polls. *)
Definition accepted : list Event :=
  [EvFileChange [clip]; EvNameChange "holiday"; EvSubmit;
   EvUploadResolved 0 (UploadRes.mk "abc123")].

Definition polling : Runtime := from_initial accepted.

(** Interval 1 fired: query 1 is pending. *)
Definition querying : Runtime :=
  from_initial [EvFileChange [clip]; EvNameChange "holiday"; EvSubmit;
                EvUploadResolved 0 (UploadRes.mk "abc123"); EvTick 1].

(** The backend answers "completed" before interval 1 fires again, and
    the next upload starts. *)
Definition answered : list Event :=
  [EvFileChange [clip]; EvNameChange "holiday"; EvSubmit;
   EvUploadResolved 0 (UploadRes.mk "abc123");
   EvTick 1;
   EvStatusResolved 1 completed;
   EvSubmit;
   EvSubmit].

(** Interval 1 fired twice before the backend answered; the first answer
    is "completed", a new upload starts, then the second answer comes
    and a third submission follows. *)
Definition late_answer : list Event :=
  [EvFileChange [clip]; EvNameChange "holiday"; EvSubmit;
   EvUploadResolved 0 (UploadRes.mk "abc123");
   EvTick 1; EvTick 1;
   EvStatusResolved 1 completed;
   EvSubmit;
   EvStatusResolved 2 completed;
   EvSubmit].

(** A file of 2 GiB, and files at the two thresholds. *)
Definition large : File.t := File.mk "large.mov" (2 * 1024 * 1024 * 1024).
Definition at_bound : File.t := File.mk "bound.mkv" (15 * 1024 * 1024 * 1024).

Definition too_large : Err.t :=
  Err.mk (Some (Err.mkResponse (Some 413%Z)
                  (Some (Err.mkData (Some "Request Entity Too Large")))))
         (Some "Request failed with status code 413").
Definition rejected : Err.t :=
  Err.mk (Some (Err.mkResponse (Some 422%Z)
                  (Some (Err.mkData (Some "Unsupported video format")))))
         (Some "Request failed with status code 422").

(** A file and a name are given, nothing was sent. *)
Definition filled : list Event :=
  [EvFileChange [clip]; EvNameChange "holiday"].
Definition ready : Runtime :=
  from_initial [EvFileChange [clip]; EvNameChange "holiday"].
Definition ready_at_bound : Runtime :=
  from_initial [EvFileChange [at_bound]; EvNameChange "holiday"].

(** The form is submitted. *)
Definition submitted : list Event :=
  [EvFileChange [clip]; EvNameChange "holiday"; EvSubmit].

(** The form is submitted, the picker is closed without a file, and the
    backend refuses the upload. *)
Definition failed_upload : list Event :=
  [EvSubmit; EvFileChange []; EvUploadRejected 0 rejected].

(** The busy warning is raised during the upload, then the task
    completes. *)
Definition warned : list Event :=
  [EvFileChange [clip]; EvNameChange "holiday"; EvSubmit; EvSubmit].
Definition after_warning : list Event :=
  [EvUploadResolved 0 (UploadRes.mk "abc123"); EvTick 1;
   EvStatusResolved 1 completed; EvCloseAlert].

End Scenario.

(** ** Properties of the handlers *)

(** A state as the record of its fields. *)
Ltac destruct_state st :=
  destruct st as [[fl dr nm ds tid pr stx er uw up busy]
                    mnt deps ei ivs nh ups qs np lg];
  simpl in *.

(** Runs a handler on a state given by its fields, down to the record it
    returns. *)
Ltac run_handler :=
  lazy [exec rejected_locally rejected_busy
    handler handleUpload handleUpload_then handleUpload_catch
    handleUpload_onProgress poll poll_then poll_catch
    handleFileChange handleDrop handleDragOver handleDragLeave
    unmount useEffect effect_cleanup effect_body
    setFile setDragOver setName setDescription setTaskId setProgress
    setStatusText setError setUploadWarning setUploadProgress
    set_uploadInProgress setInterval clearInterval uploadVideo
    getTaskStatus settle_upload settle_query set_mounted set_effect
    emit modify_comp gets skip mbind M_bind mret M_ret compose snd fst
    tick_calls
    comp mounted effect_deps effect_interval intervals next_handle uploads
    queries next_promise log
    file dragOver name description taskId progress statusText error
    uploadWarning uploadProgress uploadInProgress].

(** Case analysis on the optional value, or on the flag, a handler
    branches on. *)
Ltac case_option :=
  match goal with
  | |- context [match ?x with Some _ => _ | None => _ end] => destruct x eqn:?
  end.

Ltac case_list :=
  match goal with
  | |- context [match ?x with [] => _ | _ :: _ => _ end] => destruct x eqn:?
  end.

Ltac case_flag :=
  match goal with
  | |- context [match ?x with true => _ | false => _ end] => destruct x eqn:?
  end.

(** Closes a goal on the lookups of a table after insertions and
    deletions, from what [Hc] and [Hq] say of the entries of the tables
    before. *)
Ltac lookups_solver Hc Hq :=
  intros;
  repeat match goal with
  | H : <[_:=_]> _ !! _ = Some _ |- _ =>
    apply lookup_insert_Some in H as [[? ?]|[? H]]
  | H : delete _ _ !! _ = Some _ |- _ =>
    apply lookup_delete_Some in H as [? H]
  | H : _ !! _ = Some _ |- _ =>
    first [apply Hc in H | apply Hq in H]
  end;
  destruct_and?; simplify_eq; try done; try lia; eauto.

(** All the branches of a turn of the event loop on a state given by its
    fields. *)
Ltac step_cases :=
  repeat (first [case_option | case_list | case_decide | case_bool_decide
                | case_flag];
          run_handler).

Ltac flat_log := rewrite <- ?app_assoc; simpl.

Lemma includes_unfold (sub s : string) :
  includes sub s =
  String.prefix sub s ||
  match s with EmptyString => false | String _ s' => includes sub s' end.
Proof. by destruct s. Qed.

Lemma prefix_refl (s : string) : String.prefix s s = true.
Proof.
  induction s as [|c s IH]; [done|]. simpl.
  by destruct (Ascii.ascii_dec c c).
Qed.

Lemma includes_refl (s : string) : includes s s = true.
Proof. by rewrite includes_unfold, prefix_refl. Qed.

Lemma includes_empty (s : string) : includes "" s = true.
Proof. rewrite includes_unfold. by destruct s. Qed.

Lemma includes_app_r (pre sub s : string) :
  includes sub s = true → includes sub (pre +:+ s) = true.
Proof.
  intros Hs. induction pre as [|c pre IH]; [done|].
  change (String c pre +:+ s) with (String c (pre +:+ s)).
  rewrite includes_unfold, IH. apply orb_true_r.
Qed.

Lemma net_calls_app (l k : list Action) :
  net_calls (l ++ k) = net_calls l ++ net_calls k.
Proof. apply List.filter_app. Qed.

Lemma status_calls_app (l k : list Action) :
  status_calls (l ++ k) = status_calls l ++ status_calls k.
Proof. apply List.filter_app. Qed.

Lemma queries_of_app (a : string) (l k : list Action) :
  queries_of a (l ++ k) = queries_of a l ++ queries_of a k.
Proof. apply List.filter_app. Qed.

(** In a well-formed table the interval of the live effect is the only
    one that can be active. *)
Lemma delete_live_interval (st : Runtime) (i : positive) :
  timers_wf st → effect_interval st = Some i → delete i (intervals st) = ∅.
Proof.
  intros [Hi _ _] Hei. apply map_empty. intros j.
  apply lookup_delete_None.
  destruct (intervals st !! j) as [x|] eqn:Hj; [left|by right].
  destruct (Hi _ _ Hj) as (_ & Hj' & _). congruence.
Qed.

Section Handlers.

Variable t : string → string → string.

(** C3. A payload of more than 15×1024³ bytes is rejected by
    [handleUpload] with the size error: the only effect is the
    [setError], no request is sent, no promise is left pending and the
    busy flag is not touched. *)
Theorem handleUpload_oversized (st : Runtime) (f : File.t) :
  file (comp st) = Some f →
  (File.size f > 15 * 1024 ^ 3)%Z →
  log (exec (handleUpload t) st)
    = log st ++ [SetError (t "fileTooLarge" "File size exceeds the maximum allowed (15 GB).")] ∧
  error (comp (exec (handleUpload t) st))
    = t "fileTooLarge" "File size exceeds the maximum allowed (15 GB)." ∧
  net_calls (log (exec (handleUpload t) st)) = net_calls (log st) ∧
  uploads (exec (handleUpload t) st) = uploads st ∧
  queries (exec (handleUpload t) st) = queries st ∧
  next_promise (exec (handleUpload t) st) = next_promise st ∧
  uploadInProgress (comp (exec (handleUpload t) st)) = uploadInProgress (comp st).
Proof.
  intros Hf Hsize. destruct_state st. subst. run_handler.
  rewrite decide_True by lia. run_handler.
  rewrite net_calls_app, app_nil_r. done.
Qed.

(** C1, as amended. With an empty display name the submit button is
    disabled, and that is the only guard on the name: [handleUpload]
    rejects a missing file and a payload over the bound, answers with
    the busy warning while an upload is outstanding, and otherwise sends
    the request with the empty name and surfaces no error. *)
Theorem handleUpload_empty_name (st : Runtime) :
  name (comp st) = "" →
  submit_disabled (comp st) = true ∧
  match file (comp st) with
  | None => rejected_locally t st
  | Some f =>
    if decide (File.size f > 15 * 1024 ^ 3)%Z then rejected_locally t st
    else if uploadInProgress (comp st) then rejected_busy t st
    else
      log (exec (handleUpload t) st)
        = log st ++ [WriteUploadInProgress true;
                     CallUploadVideo (next_promise st) f "" (description (comp st))] ∧
      uploads (exec (handleUpload t) st) = {[next_promise st]} ∪ uploads st ∧
      error (comp (exec (handleUpload t) st)) = error (comp st)
  end.
Proof.
  intros Hname. destruct_state st. subst. split.
  - unfold submit_disabled. simpl. apply orb_true_r.
  - run_handler. case_option; run_handler.
    + case_decide as Hsize.
      * rewrite decide_True by lia. run_handler. by eexists.
      * rewrite decide_False by lia.
        case_flag; run_handler; flat_log; done.
    + by eexists.
Qed.

(** C2, as amended. While the busy flag is set a submission never
    invokes the upload operation: no request is sent, the uploads in
    flight are the same, the flag stays set. With a file within the
    bound selected the answer is the busy warning; a missing file or a
    file over the bound is answered by its own error, checked first. *)
Theorem handleUpload_busy (st : Runtime) :
  uploadInProgress (comp st) = true →
  net_calls (log (exec (handleUpload t) st)) = net_calls (log st) ∧
  uploads (exec (handleUpload t) st) = uploads st ∧
  next_promise (exec (handleUpload t) st) = next_promise st ∧
  uploadInProgress (comp (exec (handleUpload t) st)) = true ∧
  match file (comp st) with
  | None => rejected_locally t st
  | Some f =>
    if decide (File.size f > 15 * 1024 ^ 3)%Z then rejected_locally t st
    else rejected_busy t st
  end.
Proof.
  intros Hbusy. destruct_state st. subst. run_handler.
  case_option; run_handler.
  - case_decide as Hsize.
    + rewrite decide_True by lia. run_handler.
      rewrite net_calls_app, app_nil_r. split_and!; try done. by eexists.
    + rewrite decide_False by lia. run_handler.
      rewrite net_calls_app, app_nil_r. done.
  - rewrite net_calls_app, app_nil_r. split_and!; try done. by eexists.
Qed.

(** C8. When the upload fails with HTTP status 507 the surfaced error
    is the storage-exhaustion message, whatever the body and the message
    of the failure hold; the busy flag is cleared. *)
Theorem handleUpload_catch_507 (st : Runtime) (err : Err.t) :
  err_status err = Some 507%Z →
  error (comp (exec (handleUpload_catch t err) st))
    = t "noSpaceLeft" "Server disk space is full. Please try again later or contact administrator." ∧
  log (exec (handleUpload_catch t err) st)
    = log st ++ [WriteUploadInProgress false;
                 SetError (t "noSpaceLeft" "Server disk space is full. Please try again later or contact administrator.")] ∧
  uploadInProgress (comp (exec (handleUpload_catch t err) st)) = false.
Proof.
  intros H507. destruct_state st. run_handler.
  rewrite decide_True by done. run_handler.
  flat_log. done.
Qed.

(** C5. A poll response with status "completed" cancels the interval
    whose callback received it and clears the busy flag by one write;
    no error is surfaced and no request is sent. When the callback is the
    one of the live effect, no interval is active afterwards. *)
Theorem poll_then_completed (st : Runtime) (i : positive) (res : StatusRes.t) :
  StatusRes.status res = Some "completed" →
  log (exec (poll_then t i res) st)
    = log st ++ [ClearInterval i; WriteUploadInProgress false] ∧
  intervals (exec (poll_then t i res) st) = delete i (intervals st) ∧
  intervals (exec (poll_then t i res) st) !! i = None ∧
  (timers_wf st → effect_interval st = Some i →
   intervals (exec (poll_then t i res) st) = ∅) ∧
  uploadInProgress (comp (exec (poll_then t i res) st)) = false ∧
  error (comp (exec (poll_then t i res) st)) = error (comp st) ∧
  net_calls (log (exec (poll_then t i res) st)) = net_calls (log st).
Proof.
  intros Hs.
  assert (intervals (exec (poll_then t i res) st) = delete i (intervals st)) as Hiv.
  { destruct_state st. run_handler. rewrite decide_True by done. by run_handler. }
  rewrite Hiv. split_and!; [|done|apply lookup_delete_eq
                            |apply delete_live_interval|..];
    destruct_state st; run_handler; rewrite decide_True by done; run_handler;
    flat_log; rewrite ?net_calls_app, ?app_nil_r; done.
Qed.

(** C6. A poll response with status "failed" cancels the interval whose
    callback received it, clears the busy flag and surfaces a message
    that contains the error text of the response. When the callback is
    the one of the live effect, no interval is active afterwards. *)
Theorem poll_then_failed (st : Runtime) (i : positive) (res : StatusRes.t) :
  StatusRes.status res = Some "failed" →
  log (exec (poll_then t i res) st)
    = log st ++ [ClearInterval i; WriteUploadInProgress false;
                 SetError (error (comp (exec (poll_then t i res) st)))] ∧
  intervals (exec (poll_then t i res) st) = delete i (intervals st) ∧
  intervals (exec (poll_then t i res) st) !! i = None ∧
  (timers_wf st → effect_interval st = Some i →
   intervals (exec (poll_then t i res) st) = ∅) ∧
  uploadInProgress (comp (exec (poll_then t i res) st)) = false ∧
  error (comp (exec (poll_then t i res) st))
    = t "processingFailed" "Processing failed" +:+ ": "
      +:+ or_str (StatusRes.error res) "" ∧
  ∀ e, StatusRes.error res = Some e →
       includes e (error (comp (exec (poll_then t i res) st))) = true.
Proof.
  intros Hs.
  assert (intervals (exec (poll_then t i res) st) = delete i (intervals st)) as Hiv.
  { destruct_state st. run_handler. rewrite decide_False by congruence.
    rewrite decide_True by done. by run_handler. }
  rewrite Hiv. split_and!; [|done|apply lookup_delete_eq
                            |apply delete_live_interval|..];
    destruct_state st; run_handler; rewrite decide_False by congruence;
    rewrite decide_True by done; run_handler; flat_log; try done.
  intros e ->. unfold or_str. case_decide as He.
  - subst e. apply includes_empty.
  - do 2 apply includes_app_r. apply includes_refl.
Qed.

(** C9. A poll response whose status is neither "completed" nor
    "failed", an absent status included, only updates the progress and
    the label: the interval stays active, the busy flag keeps its
    value, no error is surfaced, nothing else is done. *)
Theorem poll_then_in_progress (st : Runtime) (i : positive) (res : StatusRes.t) :
  StatusRes.status res ≠ Some "completed" →
  StatusRes.status res ≠ Some "failed" →
  progress (comp (exec (poll_then t i res) st)) = or_num (StatusRes.progress res) 0 ∧
  statusText (comp (exec (poll_then t i res) st))
    = or_str (StatusRes.current_operation res) "" ∧
  intervals (exec (poll_then t i res) st) = intervals st ∧
  uploadInProgress (comp (exec (poll_then t i res) st)) = uploadInProgress (comp st) ∧
  error (comp (exec (poll_then t i res) st)) = error (comp st) ∧
  log (exec (poll_then t i res) st) = log st.
Proof.
  intros Hc Hf. destruct_state st. run_handler.
  rewrite !decide_False by done. by run_handler.
Qed.

(** C10, as amended. A poll response without [progress] or without
    [current_operation] is handled as a response: the progress shown
    defaults to 0 and the label to the empty string, and what happens to
    the interval, the busy flag and the error is what happens for the
    same response with the defaults filled in. Polling goes on when the
    status is neither "completed" nor "failed". *)
Theorem poll_then_missing_fields (st : Runtime) (i : positive) (res : StatusRes.t) :
  (StatusRes.progress res = None →
   progress (comp (exec (poll_then t i res) st)) = 0%Z) ∧
  (StatusRes.current_operation res = None →
   statusText (comp (exec (poll_then t i res) st)) = "") ∧
  exec (poll_then t i res) st
    = exec (poll_then t i
              (StatusRes.mk (StatusRes.status res)
                 (Some (or_num (StatusRes.progress res) 0))
                 (Some (or_str (StatusRes.current_operation res) ""))
                 (StatusRes.error res))) st ∧
  (StatusRes.status res ≠ Some "completed" →
   StatusRes.status res ≠ Some "failed" →
   intervals (exec (poll_then t i res) st) = intervals st ∧
   uploadInProgress (comp (exec (poll_then t i res) st)) = uploadInProgress (comp st) ∧
   log (exec (poll_then t i res) st) = log st).
Proof.
  destruct_state st.
  assert (Hnum : ∀ o, or_num (Some (or_num o 0)) 0 = or_num o 0).
  { intros [n|]; simpl; repeat case_decide; done. }
  assert (Hstr : ∀ o, or_str (Some (or_str o "")) "" = or_str o "").
  { intros [s|]; simpl; repeat case_decide; done. }
  split_and!.
  - intros Hp. run_handler. rewrite Hp. by repeat case_decide.
  - intros Hp. run_handler. rewrite Hp. by repeat case_decide.
  - run_handler.
    cbn [StatusRes.status StatusRes.progress StatusRes.current_operation
         StatusRes.error].
    by rewrite Hnum, Hstr.
  - intros Hc Hf. run_handler. rewrite !decide_False by done.
    by run_handler.
Qed.

End Handlers.

(** ** Properties of the event loop *)

Section EventLoop.

Variable t : string → string → string.

Lemma step_Some (st st' : Runtime) (ev : Event) :
  step t st ev = Some st' →
  enabled st ev = true ∧ st' = exec (useEffect) (exec (handler t ev) st).
Proof.
  unfold step. destruct (enabled st ev); [|done].
  intros [= <-]. split; [done|].
  unfold exec, mbind, M_bind. by destruct (handler t ev st).
Qed.

(** The effect restores [rendered] and keeps the timers well-formed. *)
Lemma useEffect_settled (st : Runtime) :
  timers_wf st → settled (exec useEffect st).
Proof.
  intros [Hi He Hq]. destruct_state st. unfold settled, rendered.
  run_handler. destruct mnt; simpl; [|by split; [split|]].
  case_bool_decide as Hd; run_handler; [|by split; [split|]].
  assert (Hclean : ∀ j x, ivs !! j = Some x → ei = Some j).
  { intros j x Hj. by destruct (Hi j x Hj) as (_ & ? & _). }
  case_option; run_handler; case_decide as Htid; run_handler.
  all: split; [split|]; simpl; try done.
  all: lookups_solver Hclean Hq.
Qed.

(** Every handler keeps the timers well-formed. *)
Lemma handler_timers_wf (st : Runtime) (ev : Event) :
  timers_wf st → enabled st ev = true → timers_wf (exec (handler t ev) st).
Proof.
  intros [Hi He Hq] Hen. destruct_state st.
  assert (Hlive : ∀ j x, ivs !! j = Some x →
    mnt = true ∧ ei = Some j ∧ x = deps ∧ (j < nh)%positive).
  { intros j x Hj. destruct (Hi j x Hj) as (? & ? & ?). eauto. }
  destruct ev; run_handler;
    repeat (first [case_option | case_list | case_decide | case_flag];
            run_handler);
    split; simpl; try done.
  all: lookups_solver Hlive Hq.
Qed.

Lemma step_settled (st st' : Runtime) (ev : Event) :
  timers_wf st → step t st ev = Some st' → settled st'.
Proof.
  intros Hwf [Hen ->]%step_Some.
  by apply useEffect_settled, handler_timers_wf.
Qed.

Lemma run_settled (evs : list Event) (st st' : Runtime) :
  settled st → run t st evs = Some st' → settled st'.
Proof.
  revert st. induction evs as [|ev evs IH]; simpl; intros st Hst.
  - by intros [= <-].
  - destruct (step t st ev) as [st1|] eqn:Hstep; simpl; [|done].
    apply IH. eapply step_settled; [apply Hst | done].
Qed.

Lemma initial_settled : settled initial.
Proof. split; [split|]; simpl; done. Qed.

Lemma reachable_settled (st : Runtime) : reachable t st → settled st.
Proof. intros [evs Hrun]. eapply run_settled; [apply initial_settled | done]. Qed.

(** *** What a turn of the event loop does to the timers and the log *)

Ltac old_entry :=
  intros;
  repeat match goal with
  | H : <[_:=_]> _ !! _ = Some _ |- _ =>
    apply lookup_insert_Some in H as [[? ?]|[? H]]
  | H : delete _ _ !! _ = Some _ |- _ =>
    apply lookup_delete_Some in H as [? H]
  end; simplify_eq; try done; lia.

Lemma useEffect_intervals_old (st : Runtime) (i : positive) (x : string) :
  (i < next_handle st)%positive →
  intervals (exec useEffect st) !! i = Some x →
  intervals st !! i = Some x.
Proof.
  destruct_state st. intros Hi. run_handler. destruct mnt; run_handler;
    step_cases; old_entry.
Qed.

Lemma handler_intervals_old (st : Runtime) (ev : Event) (i : positive) (x : string) :
  intervals (exec (handler t ev) st) !! i = Some x →
  intervals st !! i = Some x.
Proof.
  destruct_state st. destruct ev; run_handler; step_cases; old_entry.
Qed.

Lemma useEffect_next_handle (st : Runtime) :
  (next_handle st ≤ next_handle (exec useEffect st))%positive.
Proof.
  destruct_state st. run_handler. destruct mnt; run_handler; step_cases; lia.
Qed.

Lemma handler_next_handle (st : Runtime) (ev : Event) :
  next_handle (exec (handler t ev) st) = next_handle st.
Proof. destruct_state st. destruct ev; run_handler; by step_cases. Qed.

(** A turn starts at most one interval, with the next fresh handle:
    an entry with an older handle was there before. *)
Lemma step_intervals_old (st st' : Runtime) (ev : Event) (i : positive) (x : string) :
  step t st ev = Some st' →
  (i < next_handle st)%positive →
  intervals st' !! i = Some x →
  intervals st !! i = Some x.
Proof.
  intros [Hen ->]%step_Some Hi Hl.
  apply useEffect_intervals_old in Hl; [|by rewrite handler_next_handle].
  by apply handler_intervals_old in Hl.
Qed.

Lemma step_next_handle (st st' : Runtime) (ev : Event) :
  step t st ev = Some st' → (next_handle st ≤ next_handle st')%positive.
Proof.
  intros [Hen ->]%step_Some.
  rewrite <- (handler_next_handle st ev) at 1. apply useEffect_next_handle.
Qed.

Ltac log_suffix :=
  first [ by (exists []; rewrite app_nil_r)
        | flat_log; eexists; split; [reflexivity|done] ].

Lemma useEffect_log (st : Runtime) :
  ∃ l, log (exec useEffect st) = log st ++ l ∧ status_calls l = [].
Proof.
  destruct_state st. run_handler. destruct mnt; run_handler; step_cases;
    log_suffix.
Qed.

Lemma handler_log (st : Runtime) (ev : Event) :
  ∃ l, log (exec (handler t ev) st) = log st ++ l ∧
       status_calls l = tick_calls st ev.
Proof.
  destruct_state st. destruct ev; run_handler; step_cases; log_suffix.
Qed.

(** The only request a turn can add to the status queries is the one of
    the interval that fires. *)
Lemma step_log (st st' : Runtime) (ev : Event) :
  step t st ev = Some st' →
  ∃ l, log st' = log st ++ l ∧ status_calls l = tick_calls st ev.
Proof.
  intros [Hen ->]%step_Some.
  destruct (handler_log st ev) as (l1 & Hl1 & Hs1).
  destruct (useEffect_log (exec (handler t ev) st)) as (l2 & Hl2 & Hs2).
  exists (l1 ++ l2). rewrite Hl2, Hl1, <- app_assoc. split; [done|].
  by rewrite status_calls_app, Hs1, Hs2, app_nil_r.
Qed.

(** An interval leaves the table only through [clearInterval]. *)
Ltac cleared :=
  repeat match goal with
  | H : <[_:=_]> _ !! _ = None |- _ => apply lookup_insert_None in H as [H ?]
  | H : delete _ _ !! _ = None |- _ => apply lookup_delete_None in H as [H|H]
  end;
  simplify_eq; try congruence;
  flat_log; eexists; (split; [reflexivity|]); set_solver.

Lemma useEffect_cleared (st : Runtime) (i : positive) :
  is_Some (intervals st !! i) →
  intervals (exec useEffect st) !! i = None →
  ∃ l, log (exec useEffect st) = log st ++ l ∧ ClearInterval i ∈ l.
Proof.
  destruct_state st. intros [x Hx]. run_handler.
  destruct mnt; run_handler; step_cases; intros Hnone; cleared.
Qed.

Lemma handler_cleared (st : Runtime) (ev : Event) (i : positive) :
  is_Some (intervals st !! i) →
  intervals (exec (handler t ev) st) !! i = None →
  ∃ l, log (exec (handler t ev) st) = log st ++ l ∧ ClearInterval i ∈ l.
Proof.
  destruct_state st. intros [x Hx].
  destruct ev; run_handler; step_cases; intros Hnone; cleared.
Qed.

Lemma step_cleared (st st' : Runtime) (ev : Event) (i : positive) :
  step t st ev = Some st' →
  is_Some (intervals st !! i) →
  intervals st' !! i = None →
  ∃ l, log st' = log st ++ l ∧ ClearInterval i ∈ l.
Proof.
  intros [Hen ->]%step_Some Hi Hnone.
  destruct (intervals (exec (handler t ev) st) !! i) as [x|] eqn:Hmid.
  - destruct (useEffect_cleared _ i (mk_is_Some _ _ Hmid) Hnone)
      as (l2 & Hl2 & Hin).
    destruct (handler_log st ev) as (l1 & Hl1 & _).
    exists (l1 ++ l2). rewrite Hl2, Hl1, <- app_assoc. set_solver.
  - destruct (handler_cleared st ev i Hi Hmid) as (l1 & Hl1 & Hin).
    destruct (useEffect_log (exec (handler t ev) st)) as (l2 & Hl2 & _).
    exists (l1 ++ l2). rewrite Hl2, Hl1, <- app_assoc. set_solver.
Qed.

(** *** Runs *)

(** Handles are not reused: an interval that is not active, with a
    handle already given out, is never active again. *)
Lemma run_cleared (evs : list Event) (st st' : Runtime) (i : positive) :
  run t st evs = Some st' →
  (i < next_handle st)%positive →
  intervals st !! i = None →
  intervals st' !! i = None.
Proof.
  revert st. induction evs as [|ev evs IH]; simpl; intros st Hrun Hi Hnone.
  - by simplify_eq.
  - destruct (step t st ev) as [st1|] eqn:Hstep; simpl in Hrun; [|done].
    apply (IH st1); [done| |].
    + pose proof (step_next_handle _ _ _ Hstep). lia.
    + destruct (intervals st1 !! i) as [x|] eqn:Hx; [|done].
      apply (step_intervals_old _ _ _ _ _ Hstep Hi) in Hx. congruence.
Qed.

Lemma not_enabled_tick (st : Runtime) (i : positive) :
  intervals st !! i = None → enabled st (EvTick i) = false.
Proof.
  intros Hi. simpl. rewrite Hi. apply bool_decide_eq_false_2.
  by intros [? ?].
Qed.

(** After the teardown nothing is mounted and no interval is active,
    for good. *)
Lemma step_unmounted (st st' : Runtime) (ev : Event) :
  settled st → mounted st = false →
  step t st ev = Some st' →
  mounted st' = false ∧ status_calls (log st') = status_calls (log st).
Proof.
  intros [[Hi _ _] _] Hm Hstep.
  destruct (step_log _ _ _ Hstep) as (l & Hl & Hs).
  rewrite Hl, status_calls_app, Hs.
  apply step_Some in Hstep as [Hen ->]. split.
  - clear Hi Hl Hs. destruct_state st. subst.
    destruct ev; run_handler; by step_cases.
  - unfold tick_calls. destruct ev; rewrite ?app_nil_r; try done.
    destruct (intervals st !! i) as [x|] eqn:Hx; rewrite ?app_nil_r; [|done].
    destruct (Hi _ _ Hx) as (? & _). congruence.
Qed.

Lemma run_unmounted (evs : list Event) (st st' : Runtime) :
  settled st → mounted st = false →
  run t st evs = Some st' →
  status_calls (log st') = status_calls (log st).
Proof.
  revert st. induction evs as [|ev evs IH]; simpl; intros st Hst Hm Hrun.
  - by simplify_eq.
  - destruct (step t st ev) as [st1|] eqn:Hstep; simpl in Hrun; [|done].
    destruct (step_unmounted _ _ _ Hst Hm Hstep) as [Hm1 <-].
    apply IH; [|done..]. eapply step_settled; [apply Hst|done].
Qed.

Lemma queries_of_status_calls (a : string) (l : list Action) :
  queries_of a (status_calls l) = queries_of a l.
Proof.
  unfold queries_of, status_calls.
  induction l as [|x l IH]; [done|].
  destruct x; simpl; try done. by rewrite IH.
Qed.

(** The queries of a turn are for the [taskId] tracked at that time. *)
Lemma step_queries_of (st st' : Runtime) (ev : Event) (a : string) :
  settled st → taskId (comp st) ≠ a →
  step t st ev = Some st' →
  queries_of a (log st') = queries_of a (log st).
Proof.
  intros [[Hi _ _] Hr] Ha Hstep.
  destruct (step_log _ _ _ Hstep) as (l & -> & Hs).
  rewrite queries_of_app, <- (queries_of_status_calls a l), Hs.
  unfold tick_calls. destruct ev; rewrite ?app_nil_r; try done.
  destruct (intervals st !! i) as [x|] eqn:Hx; rewrite ?app_nil_r; [|done].
  destruct (Hi _ _ Hx) as (Hm & _ & ->). rewrite (Hr Hm) in *.
  unfold queries_of. simpl.
  rewrite bool_decide_eq_false_2 by done. by rewrite app_nil_r.
Qed.

Lemma run_queries_of (evs : list Event) (st st' : Runtime) (a : string) :
  settled st → never_tracks t a st evs →
  run t st evs = Some st' →
  queries_of a (log st') = queries_of a (log st).
Proof.
  revert st. induction evs as [|ev evs IH]; simpl; intros st Hst [Ha Hnt] Hrun.
  - by simplify_eq.
  - destruct (step t st ev) as [st1|] eqn:Hstep; simpl in Hrun; [|done].
    rewrite <- (step_queries_of _ _ _ _ Hst Ha Hstep).
    apply IH; [|done..]. eapply step_settled; [apply Hst|done].
Qed.

Lemma or_str_nonempty (a : option string) (b : string) :
  b ≠ "" → or_str a b ≠ "".
Proof. intros Hb. unfold or_str. destruct a; [case_decide|]; done. Qed.

(** ** The claims on polling *)

(** C7. When a status query fails, the callback cancels its interval,
    clears the busy flag and surfaces a message: the detail of the
    response, else the message of the failure, else the fallback. It
    sends no request, and the interval never fires again, so the query
    is not retried. When the callback is the one of the live effect, no
    interval is active afterwards. *)
Theorem poll_catch_stops_polling (st : Runtime) (i : positive) (err : Err.t) :
  log (exec (poll_catch t i err) st)
    = log st ++ [ClearInterval i; WriteUploadInProgress false;
                 SetError (or_str (err_detail err)
                   (or_str (Err.message err)
                      (t "statusCheckFailed" "Failed to check upload status.")))] ∧
  error (comp (exec (poll_catch t i err) st))
    = or_str (err_detail err)
        (or_str (Err.message err)
           (t "statusCheckFailed" "Failed to check upload status.")) ∧
  (t "statusCheckFailed" "Failed to check upload status." ≠ "" →
   error (comp (exec (poll_catch t i err) st)) ≠ "") ∧
  uploadInProgress (comp (exec (poll_catch t i err) st)) = false ∧
  intervals (exec (poll_catch t i err) st) = delete i (intervals st) ∧
  (timers_wf st → effect_interval st = Some i →
   intervals (exec (poll_catch t i err) st) = ∅) ∧
  net_calls (log (exec (poll_catch t i err) st)) = net_calls (log st) ∧
  queries (exec (poll_catch t i err) st) = queries st ∧
  ((i < next_handle st)%positive →
   ∀ evs st', run t (exec (poll_catch t i err) st) evs = Some st' →
     intervals st' !! i = None ∧ enabled st' (EvTick i) = false).
Proof.
  assert (Hexec : exec (poll_catch t i err) st =
    mkRuntime
      (mkComp (file (comp st)) (dragOver (comp st)) (name (comp st))
         (description (comp st)) (taskId (comp st)) (progress (comp st))
         (statusText (comp st))
         (or_str (err_detail err)
            (or_str (Err.message err)
               (t "statusCheckFailed" "Failed to check upload status.")))
         (uploadWarning (comp st)) (uploadProgress (comp st)) false)
      (mounted st) (effect_deps st) (effect_interval st)
      (delete i (intervals st)) (next_handle st) (uploads st) (queries st)
      (next_promise st)
      (log st ++ [ClearInterval i; WriteUploadInProgress false;
                  SetError (or_str (err_detail err)
                    (or_str (Err.message err)
                       (t "statusCheckFailed" "Failed to check upload status.")))])).
  { destruct_state st. run_handler. flat_log. done. }
  rewrite Hexec. simpl. split_and!; try done.
  - intros Hfb. by do 2 apply or_str_nonempty.
  - apply delete_live_interval.
  - by rewrite net_calls_app, app_nil_r.
  - intros Hi evs st' Hrun.
    assert (intervals st' !! i = None) as Hnone.
    { eapply run_cleared; [exact Hrun|done|]. simpl. apply lookup_delete_eq. }
    split; [done|]. by apply not_enabled_tick.
Qed.

(** C4. When the component is torn down, or the tracked [taskId]
    changes, while an interval polls, that interval is cancelled by a
    [clearInterval] and never fires again. After a teardown no status
    query is sent at all, and after a change none is sent for the old
    identifier as long as it is not the tracked one again. *)
Theorem cleanup_cancels_polling
    (st st' : Runtime) (ev : Event) (i : positive) (a : string) :
  reachable t st →
  intervals st !! i = Some a →
  step t st ev = Some st' →
  ev = EvUnmount ∨ taskId (comp st') ≠ taskId (comp st) →
  a = taskId (comp st) ∧
  intervals st' !! i = None ∧
  (∃ l, log st' = log st ++ l ∧ ClearInterval i ∈ l) ∧
  ∀ evs st'', run t st' evs = Some st'' →
    intervals st'' !! i = None ∧
    enabled st'' (EvTick i) = false ∧
    (ev = EvUnmount → status_calls (log st'') = status_calls (log st')) ∧
    (never_tracks t a st' evs →
     queries_of a (log st'') = queries_of a (log st')).
Proof.
  intros Hst%reachable_settled Hi Hstep Hev.
  pose proof (step_settled _ _ _ (proj1 Hst) Hstep) as Hst'.
  destruct Hst as [Hwf Hr]. destruct (wf_interval _ Hwf _ _ Hi) as (Hm & Hei & Ha).
  assert (a = taskId (comp st)) as Htid by (by rewrite Ha, (Hr Hm)).
  assert (i < next_handle st)%positive as Hfresh by (by apply (wf_effect_fresh _ Hwf)).
  assert (ev = EvUnmount → mounted st' = false) as Hdead.
  { intros ->. apply step_Some in Hstep as [_ ->]. clear.
    destruct_state st. run_handler. by step_cases. }
  assert (intervals st' !! i = None) as Hnone.
  { destruct (intervals st' !! i) as [x|] eqn:Hx; [exfalso|done].
    destruct Hst' as [Hwf' Hr'].
    destruct (wf_interval _ Hwf' _ _ Hx) as (Hm' & _ & Hx').
    destruct Hev as [->|Hne]; [rewrite Hdead in Hm'; done|].
    apply (step_intervals_old _ _ _ _ _ Hstep Hfresh) in Hx.
    rewrite (Hr' Hm') in Hx'. congruence. }
  split_and!; [done..| |].
  { eapply step_cleared; eauto. }
  intros evs st'' Hrun.
  assert (intervals st'' !! i = None) as Hnone'.
  { eapply run_cleared; [exact Hrun| |done].
    pose proof (step_next_handle _ _ _ Hstep). lia. }
  split_and!; [done|by apply not_enabled_tick| |].
  - intros Hu. eapply run_unmounted; [exact Hst'|by apply Hdead|done].
  - intros Hnt. by eapply run_queries_of.
Qed.

(** ** The life cycle of an upload *)

(** What an enabled event and a settled promise say of the tables. *)
Ltac pending :=
  repeat match goal with
  | H : bool_decide _ = true |- _ => apply bool_decide_eq_true in H
  | H : _ ∈ ∅ |- _ => by apply not_elem_of_empty in H
  | H : _ ∈ {[_]} |- _ => apply elem_of_singleton in H; subst
  | H : is_Some (∅ !! _) |- _ => rewrite lookup_empty in H; by destruct H
  | H : ∅ !! _ = Some _ |- _ => by rewrite lookup_empty in H
  | H : {[_ := _]} !! _ = Some _ |- _ =>
    apply lookup_singleton_Some in H as [? ?]; subst
  | H : is_Some ?x, H' : ?x = None |- _ => rewrite H' in H; by destruct H
  end.

Ltac tables :=
  rewrite ?difference_diag_L, ?empty_difference_L, ?union_empty_r_L,
    ?delete_empty, ?delete_singleton_eq, ?insert_empty.

Ltac in_phase Hlive :=
  simpl; tables;
  solve [ by apply LcIdle; simpl; tables; rewrite ?Hlive
        | by eapply LcUploading; simpl; tables
        | by apply LcProcessing; simpl; tables
        | eapply LcQuerying; simpl; tables; by eauto ].

Lemma useEffect_lifecycle (st : Runtime) :
  lifecycle st → accepted_or_rendered st → lifecycle (exec useEffect st).
Proof.
  intros Hlc Hacc. unfold accepted_or_rendered in Hacc.
  destruct_state st. run_handler. destruct mnt; run_handler; [|done].
  case_bool_decide as Hd; run_handler; [|done].
  destruct (Hacc eq_refl Hd) as (? & ? & ? & ?). simpl in *. subst.
  step_cases; by apply LcProcessing.
Qed.

Lemma handler_lifecycle (st : Runtime) (ev : Event) :
  settled st → lifecycle st → enabled st ev = true → in_time st ev →
  lifecycle (exec (handler t ev) st) ∧
  accepted_or_rendered (exec (handler t ev) st).
Proof.
  intros [Hwf Hr] Hlc Hen Htime.
  assert (Hlive : ∀ i, effect_interval st = Some i →
                       delete i (intervals st) = ∅).
  { intros i. by apply delete_live_interval. }
  assert (Hown : ∀ i x, intervals st !! i = Some x →
                        effect_interval st = Some i).
  { intros i x Hi. by destruct (wf_interval _ Hwf _ _ Hi) as (_ & ? & _). }
  clear Hwf. unfold rendered in Hr. unfold accepted_or_rendered.
  destruct_state st.
  destruct Hlc as [? ? ?| p ? ? ? ?| ? ? ?| p i ? ? ? ?];
    simpl in *; subst;
    destruct ev; simpl in Hen, Htime; pending;
    run_handler; step_cases; pending;
    (split; [in_phase Hlive|]); simpl; tables; try done;
    intros -> Hne; by rewrite ?Hr in Hne.
Qed.

Lemma step_lifecycle (st st' : Runtime) (ev : Event) :
  settled st → lifecycle st → in_time st ev →
  step t st ev = Some st' → lifecycle st'.
Proof.
  intros Hst Hlc Htime [Hen ->]%step_Some.
  destruct (handler_lifecycle st ev Hst Hlc Hen Htime) as [Hlc' Hacc].
  by apply useEffect_lifecycle.
Qed.

Lemma run_lifecycle (evs : list Event) (st st' : Runtime) :
  settled st → lifecycle st → answered_in_time t st evs →
  run t st evs = Some st' → lifecycle st'.
Proof.
  revert st. induction evs as [|ev evs IH]; simpl; intros st Hst Hlc Hans Hrun.
  - by simplify_eq.
  - destruct Hans as [Htime Hans].
    destruct (step t st ev) as [st1|] eqn:Hstep; simpl in Hrun; [|done].
    apply (IH st1); [|by eapply step_lifecycle|done..].
    eapply step_settled; [apply Hst|done].
Qed.

(** While the backend answers every status query before the interval
    fires again, at most one upload is in flight at any time, and the
    busy flag is set while one is. *)
Theorem single_upload_in_flight (evs : list Event) (st : Runtime) :
  run t initial evs = Some st →
  answered_in_time t initial evs →
  size (uploads st) ≤ 1 ∧
  (uploads st ≠ ∅ → uploadInProgress (comp st) = true).
Proof.
  intros Hrun Hans.
  assert (lifecycle st) as Hlc.
  { eapply run_lifecycle; [apply initial_settled|by apply LcIdle|done..]. }
  destruct Hlc as [Hu _ _|p Hb Hu _ _|_ Hu _|p i _ Hu _ _]; rewrite Hu;
    rewrite ?size_empty, ?size_singleton; split; (lia || done).
Qed.

(** At any time at most one interval is active: the one of the live
    effect of the mounted component, and it polls the tracked [taskId]. *)
Theorem one_interval_polls_tracked_task
    (st : Runtime) (i : positive) (a : string) :
  reachable t st →
  intervals st !! i = Some a →
  mounted st = true ∧ a = taskId (comp st) ∧ intervals st = {[i := a]}.
Proof.
  intros [Hwf Hr]%reachable_settled Hi.
  destruct (wf_interval _ Hwf _ _ Hi) as (Hm & Hei & Ha).
  split_and!; [done|by rewrite Ha, (Hr Hm)|].
  apply map_eq. intros j. destruct (decide (j = i)) as [->|Hne].
  - by rewrite lookup_singleton_eq.
  - rewrite lookup_singleton_ne by done.
    destruct (intervals st !! j) as [x|] eqn:Hj; [|done].
    destruct (wf_interval _ Hwf _ _ Hj) as (_ & Hej & _). congruence.
Qed.

End EventLoop.

(** ** The form: selection, submission and what the render shows *)

Section Form.

Variable t : string → string → string.

(** A submission that finds a file within the bound and no upload
    outstanding sends the request. *)
Lemma handleUpload_sends (st : Runtime) (f : File.t) :
  file (comp st) = Some f →
  (File.size f ≤ 15 * 1024 ^ 3)%Z →
  uploadInProgress (comp st) = false →
  log (exec (handleUpload t) st)
    = log st ++ [WriteUploadInProgress true;
                 CallUploadVideo (next_promise st) f (name (comp st))
                   (description (comp st))].
Proof.
  intros Hf Hsize Hbusy. destruct_state st. subst. run_handler.
  rewrite decide_False by lia. run_handler. flat_log. done.
Qed.

(** X3. A file of more than 1 GiB and at most 15 GiB that is selected
    raises the large-file warning and is not held back: the submission
    that follows sends it, and the warning stays. *)
Theorem large_file_is_warned_and_sent
    (st : Runtime) (f : File.t) (rest : list File.t) :
  (File.size f > 1024 ^ 3)%Z →
  (File.size f ≤ 15 * 1024 ^ 3)%Z →
  uploadInProgress (comp st) = false →
  uploadWarning (comp (exec (handleFileChange t (f :: rest)) st))
    = t "largeFileWarning" "You're uploading a large file. It might take a while to process." ∧
  net_calls (log (exec (handleFileChange t (f :: rest)) st)) = net_calls (log st) ∧
  log (exec (handleUpload t) (exec (handleFileChange t (f :: rest)) st))
    = log (exec (handleFileChange t (f :: rest)) st)
      ++ [WriteUploadInProgress true;
          CallUploadVideo (next_promise st) f (name (comp st)) (description (comp st))] ∧
  uploadWarning (comp (exec (handleUpload t) (exec (handleFileChange t (f :: rest)) st)))
    = t "largeFileWarning" "You're uploading a large file. It might take a while to process." ∧
  error (comp (exec (handleUpload t) (exec (handleFileChange t (f :: rest)) st)))
    = error (comp st).
Proof.
  intros Hlo Hhi Hbusy. destruct_state st. subst. run_handler.
  rewrite decide_True by lia. run_handler.
  rewrite decide_False by lia. run_handler.
  flat_log. rewrite net_calls_app, app_nil_r. done.
Qed.

(** X4. Dropping files on the form selects as the file picker does: the
    drop ends the drag highlight and then does what [handleFileChange]
    does with the same files; a drop without files only ends the
    highlight. *)
Theorem handleDrop_selects_as_handleFileChange
    (st : Runtime) (files : option (list File.t)) :
  exec (handleDrop t files) st
    = exec (handleFileChange t (default [] files)) (exec handleDragLeave st).
Proof.
  destruct_state st. by destruct files as [[|f rest]|]; run_handler.
Qed.

(** X5. A submission with a file of at most 15 GiB while no upload is
    outstanding sets the busy flag, resets both progress values to 0 and
    sends one request with the file, the name and the description of the
    form. It leaves the error and the tracked task as they are. *)
Theorem handleUpload_starts (st : Runtime) (f : File.t) :
  file (comp st) = Some f →
  (File.size f ≤ 15 * 1024 ^ 3)%Z →
  uploadInProgress (comp st) = false →
  log (exec (handleUpload t) st)
    = log st ++ [WriteUploadInProgress true;
                 CallUploadVideo (next_promise st) f (name (comp st))
                   (description (comp st))] ∧
  uploads (exec (handleUpload t) st) = {[next_promise st]} ∪ uploads st ∧
  uploadInProgress (comp (exec (handleUpload t) st)) = true ∧
  progress (comp (exec (handleUpload t) st)) = 0%Z ∧
  uploadProgress (comp (exec (handleUpload t) st)) = 0%Z ∧
  statusText (comp (exec (handleUpload t) st)) = t "startingUpload" "Starting upload..." ∧
  error (comp (exec (handleUpload t) st)) = error (comp st) ∧
  taskId (comp (exec (handleUpload t) st)) = taskId (comp st) ∧
  intervals (exec (handleUpload t) st) = intervals st.
Proof.
  intros Hf Hsize Hbusy. destruct_state st. subst. run_handler.
  rewrite decide_False by lia. run_handler. flat_log. done.
Qed.


(** X7. When the upload fails with HTTP status 413 the surfaced error is
    the message that the file is too large for the server, whatever the
    body and the message of the failure hold; the busy flag is cleared
    and no task is tracked anew. *)
Theorem handleUpload_catch_413 (st : Runtime) (err : Err.t) :
  err_status err = Some 413%Z →
  log (exec (handleUpload_catch t err) st)
    = log st ++ [WriteUploadInProgress false;
                 SetError (t "fileTooLarge" "File size is too large for server to process.")] ∧
  error (comp (exec (handleUpload_catch t err) st))
    = t "fileTooLarge" "File size is too large for server to process." ∧
  uploadInProgress (comp (exec (handleUpload_catch t err) st)) = false ∧
  taskId (comp (exec (handleUpload_catch t err) st)) = taskId (comp st).
Proof.
  intros H413. destruct_state st. run_handler.
  rewrite decide_False by congruence. rewrite decide_True by done.
  run_handler. flat_log. done.
Qed.

(** X8. For an upload failure with any other status, or with no response
    at all, the surfaced error is the detail of the response body when
    there is one that is not empty; without it the message of the
    failure; and only without both the fallback. *)
Theorem handleUpload_catch_other (st : Runtime) (err : Err.t) :
  err_status err ≠ Some 507%Z →
  err_status err ≠ Some 413%Z →
  (∀ d, err_detail err = Some d → d ≠ "" →
        error (comp (exec (handleUpload_catch t err) st)) = d) ∧
  (∀ m, (err_detail err = None ∨ err_detail err = Some "") →
        Err.message err = Some m → m ≠ "" →
        error (comp (exec (handleUpload_catch t err) st)) = m) ∧
  ((err_detail err = None ∨ err_detail err = Some "") →
   (Err.message err = None ∨ Err.message err = Some "") →
   error (comp (exec (handleUpload_catch t err) st)) = t "uploadFailed" "Upload failed.") ∧
  uploadInProgress (comp (exec (handleUpload_catch t err) st)) = false.
Proof.
  intros H507 H413.
  assert (error (comp (exec (handleUpload_catch t err) st))
          = or_str (err_detail err)
              (or_str (Err.message err) (t "uploadFailed" "Upload failed."))
          ∧ uploadInProgress (comp (exec (handleUpload_catch t err) st)) = false)
    as [-> Hb].
  { destruct_state st. run_handler. rewrite !decide_False by done.
    by run_handler. }
  split_and!; [| | |done].
  - intros d -> Hd. simpl. by rewrite decide_False.
  - intros m [->| ->] -> Hm; simpl; by rewrite decide_False.
  - by intros [->| ->] [->| ->].
Qed.

(** X9. Every way an upload ends clears the busy flag, so that the next
    submission of a file within the bound is not answered by the busy
    warning: it sends a new request. *)
Theorem terminal_allows_next_upload (m : M unit) (st : Runtime) (f : File.t) :
  terminal t m →
  file (comp st) = Some f →
  (File.size f ≤ 15 * 1024 ^ 3)%Z →
  uploadInProgress (comp (exec m st)) = false ∧
  file (comp (exec m st)) = Some f ∧
  log (exec (handleUpload t) (exec m st))
    = log (exec m st)
      ++ [WriteUploadInProgress true;
          CallUploadVideo (next_promise st) f (name (comp st)) (description (comp st))].
Proof.
  intros Hm Hf Hsize.
  assert (uploadInProgress (comp (exec m st)) = false ∧
          file (comp (exec m st)) = file (comp st) ∧
          name (comp (exec m st)) = name (comp st) ∧
          description (comp (exec m st)) = description (comp st) ∧
          next_promise (exec m st) = next_promise st)
    as (Hb & Hfile & Hn & Hd & Hp).
  { clear Hf. destruct_state st.
    destruct Hm as [m [err|i err|i res Hs]|i res Hs]; run_handler;
      step_cases; try done; congruence. }
  rewrite Hf in Hfile. split_and!; [done..|].
  rewrite <- Hn, <- Hd, <- Hp. by apply handleUpload_sends.
Qed.

(** X10. No failure is swallowed: when the translation of a fallback
    that is not empty is not empty, every failure leaves an error that
    is not empty, so that the alert is open. *)
Theorem failure_opens_alert (m : M unit) (st : Runtime) :
  (∀ key fallback, fallback ≠ "" → t key fallback ≠ "") →
  failure t m →
  error (comp (exec m st)) ≠ "" ∧ alert_open (comp (exec m st)) = true.
Proof.
  intros Ht Hm.
  assert (Hor : ∀ a b, b ≠ "" → or_str a b ≠ "").
  { intros a b Hb. unfold or_str. destruct a; [case_decide|]; done. }
  assert (error (comp (exec m st)) ≠ "") as He.
  { destruct_state st. destruct Hm as [err|i err|i res Hs]; run_handler.
    - repeat case_decide; run_handler;
        [apply Ht| apply Ht| do 2 apply Hor; apply Ht]; done.
    - do 2 apply Hor. by apply Ht.
    - rewrite (decide_False (P := StatusRes.status res = Some "completed"))
        by congruence.
      rewrite (decide_True (P := StatusRes.status res = Some "failed")) by done.
      run_handler.
      destruct (t "processingFailed" "Processing failed"); discriminate. }
  split; [done|]. unfold alert_open. by rewrite bool_decide_eq_false_2.
Qed.

(** X11. During an upload with no task tracked, a progress event shows
    the bar of the transfer for a percentage strictly between 0 and 100
    and the panel of the processing for 100, never both; the busy flag
    and the request are not touched. *)
Theorem onProgress_switches_bars (st : Runtime) (pc : Z) :
  uploadInProgress (comp st) = true →
  taskId (comp st) = "" →
  show_upload_progress (comp (exec (handleUpload_onProgress t pc) st))
    = bool_decide (0 < pc < 100)%Z ∧
  show_processing (comp (exec (handleUpload_onProgress t pc) st))
    = bool_decide (pc = 100%Z) ∧
  uploadInProgress (comp (exec (handleUpload_onProgress t pc) st)) = true ∧
  log (exec (handleUpload_onProgress t pc) st) = log st ∧
  uploads (exec (handleUpload_onProgress t pc) st) = uploads st.
Proof.
  intros Hb Ht. destruct_state st. subst. run_handler.
  unfold show_upload_progress, show_processing. simpl.
  split_and!; try done.
  repeat case_bool_decide; simpl; try done; lia.
Qed.

End Form.

(** ** Runs: when polling starts, what is polled, what is kept *)

Section Runs.

Variable t : string → string → string.

Lemma step_enabled (st : Runtime) (ev : Event) :
  enabled st ev = true →
  step t st ev = Some (exec (handler t ev;; useEffect) st).
Proof. intros Hen. unfold step. by rewrite Hen. Qed.

(** Without a live interval no interval is active. *)
Lemma no_live_interval (st : Runtime) :
  timers_wf st → effect_interval st = None → intervals st = ∅.
Proof.
  intros [Hi _ _] Hei. apply map_empty. intros j.
  destruct (intervals st !! j) as [x|] eqn:Hj; [|done].
  destruct (Hi _ _ Hj) as (_ & Hj' & _). congruence.
Qed.

(** The effect starts an interval only for a [taskId] that is not
    empty, and no handler starts one. *)
Lemma step_named (st st' : Runtime) (ev : Event) :
  polls_named st → step t st ev = Some st' → polls_named st'.
Proof.
  intros Hn [Hen ->]%step_Some.
  assert (polls_named (exec (handler t ev) st)) as Hmid.
  { intros i x Hi. apply handler_intervals_old in Hi. by eapply Hn. }
  revert Hmid. generalize (exec (handler t ev) st). clear.
  intros st Hn. unfold polls_named in *. destruct_state st.
  run_handler. destruct mnt; cbn [andb]; run_handler; [|done].
  step_cases; try done;
    intros i x Hi;
    repeat match goal with
    | H : <[_:=_]> _ !! _ = Some _ |- _ =>
      apply lookup_insert_Some in H as [[? ?]|[? H]]
    | H : delete _ _ !! _ = Some _ |- _ =>
      apply lookup_delete_Some in H as [? H]
    end; simplify_eq; eauto.
Qed.

Lemma run_named (evs : list Event) (st st' : Runtime) :
  polls_named st → run t st evs = Some st' → polls_named st'.
Proof.
  revert st. induction evs as [|ev evs IH]; simpl; intros st Hn Hrun.
  - by simplify_eq.
  - destruct (step t st ev) as [st1|] eqn:Hstep; simpl in Hrun; [|done].
    apply (IH st1); [|done]. by eapply step_named.
Qed.

Lemma reachable_named (st : Runtime) : reachable t st → polls_named st.
Proof.
  intros [evs Hrun]. eapply run_named; [|done].
  intros i x Hi. simpl in Hi. by rewrite lookup_empty in Hi.
Qed.

(** X12. When the backend accepts the upload with a task identifier that
    is not empty and not the tracked one, the mounted component tracks
    it and starts one interval, the only one active; the busy flag is not
    touched and no status query is sent yet. The first tick of that
    interval sends the status query for that identifier. *)
Theorem accepted_starts_polling (st : Runtime) (p : nat) (res : UploadRes.t) :
  reachable t st →
  mounted st = true →
  p ∈ uploads st →
  UploadRes.task_id res ≠ "" →
  UploadRes.task_id res ≠ taskId (comp st) →
  ∃ st',
    step t st (EvUploadResolved p res) = Some st' ∧
    taskId (comp st') = UploadRes.task_id res ∧
    intervals st' = {[next_handle st := UploadRes.task_id res]} ∧
    uploads st' = uploads st ∖ {[p]} ∧
    uploadInProgress (comp st') = uploadInProgress (comp st) ∧
    status_calls (log st') = status_calls (log st) ∧
    ∃ st'',
      step t st' (EvTick (next_handle st)) = Some st'' ∧
      log st'' = log st'
        ++ [CallGetTaskStatus (next_promise st) (UploadRes.task_id res)] ∧
      intervals st'' = intervals st'.
Proof.
  intros [Hwf Hr]%reachable_settled Hm Hp Hne Hnew.
  pose proof (λ i, delete_live_interval st i Hwf) as Hlive.
  pose proof (no_live_interval st Hwf) as Hnone.
  specialize (Hr Hm).
  assert (Hen : enabled st (EvUploadResolved p res) = true)
    by (by apply bool_decide_eq_true_2).
  eexists. split; [by apply step_enabled|].
  assert (Hiv : intervals (exec (handler t (EvUploadResolved p res);; useEffect) st)
                = {[next_handle st := UploadRes.task_id res]}).
  { clear Hwf Hen Hp. destruct_state st. subst. run_handler. cbn [andb].
    rewrite bool_decide_eq_true_2 by done. run_handler.
    case_option; run_handler; rewrite decide_False by done; run_handler.
    - by rewrite (Hlive _ eq_refl), insert_empty.
    - by rewrite (Hnone eq_refl), insert_empty. }
  split_and!; [..|].
  - clear. destruct_state st. run_handler. by step_cases.
  - done.
  - clear. destruct_state st. run_handler. by step_cases.
  - clear. destruct_state st. run_handler. by step_cases.
  - destruct (step_log t st _ (EvUploadResolved p res) (step_enabled _ _ Hen))
      as (l & -> & Hl).
    by rewrite status_calls_app, Hl, app_nil_r.
  - assert (Hen' : enabled (exec (handler t (EvUploadResolved p res);; useEffect) st)
                     (EvTick (next_handle st)) = true).
    { apply bool_decide_eq_true_2. by rewrite Hiv, lookup_singleton_eq. }
    eexists. split; [by apply step_enabled|].
    clear Hwf Hen Hp Hen' Hiv Hlive Hnone. destruct_state st. subst.
    destruct ei as [i0|]; run_handler; cbn [andb];
      rewrite bool_decide_eq_true_2 by done; run_handler;
      rewrite decide_False by done; run_handler;
      rewrite lookup_insert_eq; run_handler; cbn [andb];
      rewrite bool_decide_eq_false_2 by (by intros ?); run_handler; done.
Qed.


Lemma step_unnamed (st st' : Runtime) (ev : Event) :
  polls_named st → step t st ev = Some st' →
  queries_of "" (log st') = queries_of "" (log st).
Proof.
  intros Hn Hstep. destruct (step_log _ _ _ _ Hstep) as (l & -> & Hs).
  rewrite queries_of_app, <- (queries_of_status_calls "" l), Hs.
  unfold tick_calls. destruct ev; rewrite ?app_nil_r; try done.
  destruct (intervals st !! i) as [x|] eqn:Hx; rewrite ?app_nil_r; [|done].
  unfold queries_of. simpl.
  rewrite bool_decide_eq_false_2 by (by eapply Hn). by rewrite app_nil_r.
Qed.

Lemma run_unnamed (evs : list Event) (st st' : Runtime) :
  polls_named st → run t st evs = Some st' →
  queries_of "" (log st') = queries_of "" (log st).
Proof.
  revert st. induction evs as [|ev evs IH]; simpl; intros st Hn Hrun.
  - by simplify_eq.
  - destruct (step t st ev) as [st1|] eqn:Hstep; simpl in Hrun; [|done].
    rewrite <- (step_unnamed _ _ _ Hn Hstep).
    apply IH; [|done]. by eapply step_named.
Qed.

(** X14. The component never asks for the status of a task without a
    name: in no run is [getTaskStatus] called with the empty
    identifier. *)
Theorem never_queries_unnamed_task (evs : list Event) (st : Runtime) :
  run t initial evs = Some st →
  queries_of "" (log st) = [] ∧
  ∀ p tid, CallGetTaskStatus p tid ∈ log st → tid ≠ "".
Proof.
  intros Hrun.
  assert (queries_of "" (log st) = []) as Hq.
  { rewrite (run_unnamed evs initial st); [done| |done].
    intros i x Hi. simpl in Hi. by rewrite lookup_empty in Hi. }
  split; [done|]. intros p tid Hin ->.
  assert (CallGetTaskStatus p "" ∈ queries_of "" (log st)) as Hin'.
  { unfold queries_of. apply list_elem_of_In, List.filter_In.
    split; [by apply list_elem_of_In|done]. }
  rewrite Hq in Hin'. by apply not_elem_of_nil in Hin'.
Qed.

(** X15. While an interval polls, the panel of the processing is shown:
    the tracked task has a name. *)
Theorem polling_shows_processing (st : Runtime) (i : positive) (a : string) :
  reachable t st →
  intervals st !! i = Some a →
  taskId (comp st) = a ∧ a ≠ "" ∧ show_processing (comp st) = true.
Proof.
  intros Hreach Hi.
  pose proof (reachable_named _ Hreach _ _ Hi) as Ha.
  destruct (reachable_settled t _ Hreach) as [Hwf Hr].
  destruct (wf_interval _ Hwf _ _ Hi) as (Hm & _ & Hd).
  assert (taskId (comp st) = a) as Htid by (by rewrite Hd, (Hr Hm)).
  split_and!; [done..|]. unfold show_processing.
  rewrite Htid, bool_decide_eq_false_2 by done. done.
Qed.

(** The effect leaves the hook state alone. *)
Lemma useEffect_comp (st : Runtime) : comp (exec useEffect st) = comp st.
Proof.
  destruct_state st. run_handler. destruct mnt; cbn [andb]; run_handler;
    by step_cases.
Qed.

(** Only a selection that is not empty writes [file]. *)
Lemma handler_file (st : Runtime) (ev : Event) :
  file (comp (exec (handler t ev) st))
  = match ev with
    | EvFileChange (f :: _) | EvDrop (Some (f :: _)) => Some f
    | _ => file (comp st)
    end.
Proof. destruct_state st. destruct ev; run_handler; by step_cases. Qed.

Lemma step_comp (st st' : Runtime) (ev : Event) :
  step t st ev = Some st' → comp st' = comp (exec (handler t ev) st).
Proof. intros [_ ->]%step_Some. apply useEffect_comp. Qed.

(** X16. A file once selected stays selected: no submission, answer,
    failure or empty selection clears it, so that the same file can be
    submitted again. *)
Theorem file_stays_selected (evs : list Event) (st st' : Runtime) :
  is_Some (file (comp st)) →
  run t st evs = Some st' →
  is_Some (file (comp st')).
Proof.
  revert st. induction evs as [|ev evs IH]; simpl; intros st Hf Hrun.
  - by simplify_eq.
  - destruct (step t st ev) as [st1|] eqn:Hstep; simpl in Hrun; [|done].
    apply (IH st1); [|done].
    rewrite (step_comp _ _ _ Hstep), handler_file.
    destruct ev as [[|? ?]| | |[[|? ?]|]| | | | | | | | | | |]; by eauto.
Qed.

(** Only a selection and a submission write [uploadWarning]. *)
Lemma handler_uploadWarning (st : Runtime) (ev : Event) :
  writes_warning ev = false →
  uploadWarning (comp (exec (handler t ev) st)) = uploadWarning (comp st).
Proof.
  intros Hev. destruct_state st.
  destruct ev; try discriminate Hev; run_handler; by step_cases.
Qed.

(** X17. A warning stays until the next selection or submission: the
    answers of the backend, the failures, the closing of the alert and
    the teardown leave [uploadWarning] as it is. *)
Theorem warning_stays (evs : list Event) (st st' : Runtime) :
  Forall (λ ev, writes_warning ev = false) evs →
  run t st evs = Some st' →
  uploadWarning (comp st') = uploadWarning (comp st).
Proof.
  revert st. induction evs as [|ev evs IH]; simpl; intros st Hevs Hrun.
  - by simplify_eq.
  - apply Forall_cons in Hevs as [Hev Hevs].
    destruct (step t st ev) as [st1|] eqn:Hstep; simpl in Hrun; [|done].
    rewrite (IH st1 Hevs Hrun), (step_comp _ _ _ Hstep).
    by apply handler_uploadWarning.
Qed.

Lemma initial_lifecycle (evs : list Event) (st : Runtime) :
  run t initial evs = Some st → answered_in_time t initial evs → lifecycle st.
Proof.
  intros Hrun Hans.
  eapply run_lifecycle; [apply initial_settled|by apply LcIdle|done..].
Qed.

(** X18. While the backend answers every status query before the
    interval fires again, polling never runs beside a transfer: as long
    as an upload is in flight no interval is active and no status query
    is pending. *)
Theorem no_polling_during_upload (evs : list Event) (st : Runtime) (p : nat) :
  run t initial evs = Some st →
  answered_in_time t initial evs →
  p ∈ uploads st →
  intervals st = ∅ ∧ queries st = ∅ ∧ ∀ i, enabled st (EvTick i) = false.
Proof.
  intros Hrun Hans Hp.
  assert (intervals st = ∅ ∧ queries st = ∅) as [Hi Hq].
  { destruct (initial_lifecycle _ _ Hrun Hans)
      as [Hu _ _|p' _ _ Hq Hi|_ Hu _|p' i _ Hu _ _];
      try (rewrite Hu in Hp; by apply not_elem_of_empty in Hp). done. }
  split_and!; [done..|]. intros i. apply bool_decide_eq_false_2.
  rewrite Hi, lookup_empty. by intros [? ?].
Qed.

(** X19. While the backend answers every status query before the
    interval fires again, the busy flag is set as long as an interval is
    active or a status query is pending, so that the submit button is
    disabled during the processing. *)
Theorem busy_while_polling
    (evs : list Event) (st : Runtime) :
  run t initial evs = Some st →
  answered_in_time t initial evs →
  intervals st ≠ ∅ ∨ queries st ≠ ∅ →
  uploadInProgress (comp st) = true ∧ submit_disabled (comp st) = true.
Proof.
  intros Hrun Hans Hpoll.
  assert (uploadInProgress (comp st) = true) as Hb.
  { destruct (initial_lifecycle _ _ Hrun Hans)
      as [_ Hq Hi|p' Hb _ _ _|Hb _ _|p' i Hb _ _ _]; [|done..].
    by destruct Hpoll. }
  split; [done|]. unfold submit_disabled. by rewrite Hb.
Qed.

End Runs.

(** ** The claims on the scenarios *)

(** C3 at a file of 16 GiB. *)
Lemma handleUpload_oversized_witness :
  file (comp Scenario.filled_huge) = Some Scenario.huge ∧
  (File.size Scenario.huge > 15 * 1024 ^ 3)%Z ∧
  error (comp (exec (handleUpload Scenario.t) Scenario.filled_huge))
    = "File size exceeds the maximum allowed (15 GB)." ∧
  net_calls (log (exec (handleUpload Scenario.t) Scenario.filled_huge))
    = net_calls (log Scenario.filled_huge).
Proof.
  assert (Hf : file (comp Scenario.filled_huge) = Some Scenario.huge)
    by (vm_compute; reflexivity).
  assert (Hs : (File.size Scenario.huge > 15 * 1024 ^ 3)%Z)
    by (vm_compute; reflexivity).
  pose proof (handleUpload_oversized Scenario.t Scenario.filled_huge
                Scenario.huge Hf Hs) as (_ & He & Hn & _).
  exact (conj Hf (conj Hs (conj He Hn))).
Defined.

(** C1 as stated fails: with a file chosen and the name left empty,
    [handleUpload] surfaces no error and sends the request. *)
Lemma empty_name_is_uploaded :
  name (comp Scenario.unnamed) = "" ∧
  ¬ rejected_locally Scenario.t Scenario.unnamed ∧
  error (comp (exec (handleUpload Scenario.t) Scenario.unnamed)) = "" ∧
  net_calls (log (exec (handleUpload Scenario.t) Scenario.unnamed))
    = [CallUploadVideo 0 Scenario.clip "" ""] ∧
  uploads (exec (handleUpload Scenario.t) Scenario.unnamed) = {[0]}.
Proof.
  split_and!; try (vm_compute; reflexivity).
  intros (msg & Hlog & _). vm_compute in Hlog. discriminate Hlog.
Qed.

(** The amended C1 where a file is chosen and the name is empty. *)
Lemma handleUpload_empty_name_witness :
  name (comp Scenario.unnamed) = "" ∧
  submit_disabled (comp Scenario.unnamed) = true.
Proof.
  assert (Hn : name (comp Scenario.unnamed) = "") by (vm_compute; reflexivity).
  exact (conj Hn (proj1 (handleUpload_empty_name Scenario.t Scenario.unnamed Hn))).
Defined.

(** C2 as stated fails twice. While an upload is outstanding and a file
    over the bound is chosen, a submission is answered by the size error,
    not by the busy signal. And when the backend answers two queries of
    one interval late, the second answer clears the busy flag of the next
    upload, and a further submission puts a second upload in flight. *)
Lemma busy_signal_and_single_upload_fail :
  (uploadInProgress (comp Scenario.uploading_huge) = true ∧
   ¬ rejected_busy Scenario.t Scenario.uploading_huge ∧
   log (exec (handleUpload Scenario.t) Scenario.uploading_huge)
     = log Scenario.uploading_huge
       ++ [SetError "File size exceeds the maximum allowed (15 GB)."]) ∧
  (∃ st, run Scenario.t initial Scenario.late_answer = Some st ∧
         uploads st = {[3; 4]} ∧ size (uploads st) = 2).
Proof.
  split; [split_and!|].
  - vm_compute; reflexivity.
  - intros (Hlog & _). vm_compute in Hlog. discriminate Hlog.
  - vm_compute; reflexivity.
  - eexists. split; [vm_compute; reflexivity|].
    split; vm_compute; reflexivity.
Qed.

(** The amended C2 while an upload is on its way. *)
Lemma handleUpload_busy_witness :
  uploadInProgress (comp Scenario.uploading) = true ∧
  rejected_busy Scenario.t Scenario.uploading ∧
  uploads (exec (handleUpload Scenario.t) Scenario.uploading)
    = uploads Scenario.uploading.
Proof.
  assert (Hb : uploadInProgress (comp Scenario.uploading) = true)
    by (vm_compute; reflexivity).
  pose proof (handleUpload_busy Scenario.t Scenario.uploading Hb)
    as (_ & Hu & _ & _ & Hr).
  exact (conj Hb (conj Hr Hu)).
Defined.

(** C8 at a 507 response that carries a detail and a message. *)
Lemma handleUpload_catch_507_witness :
  err_status Scenario.storage_full = Some 507%Z ∧
  error (comp (exec (handleUpload_catch Scenario.t Scenario.storage_full)
                 Scenario.uploading))
    = "Server disk space is full. Please try again later or contact administrator.".
Proof.
  assert (H : err_status Scenario.storage_full = Some 507%Z)
    by (vm_compute; reflexivity).
  exact (conj H (proj1 (handleUpload_catch_507 Scenario.t Scenario.uploading
                          Scenario.storage_full H))).
Defined.

(** C5 at the answer "completed" to the query of interval 1. *)
Lemma poll_then_completed_witness :
  StatusRes.status Scenario.completed = Some "completed" ∧
  uploadInProgress (comp Scenario.querying) = true ∧
  log (exec (poll_then Scenario.t 1 Scenario.completed) Scenario.querying)
    = log Scenario.querying ++ [ClearInterval 1; WriteUploadInProgress false] ∧
  uploadInProgress
    (comp (exec (poll_then Scenario.t 1 Scenario.completed) Scenario.querying))
    = false.
Proof.
  assert (H : StatusRes.status Scenario.completed = Some "completed")
    by reflexivity.
  pose proof (poll_then_completed Scenario.t Scenario.querying 1
                Scenario.completed H) as (Hl & _ & _ & _ & Hb & _).
  split_and!; [exact H | vm_compute; reflexivity | exact Hl | exact Hb].
Defined.

(** C6 at the answer "failed" with the error "disk full". *)
Lemma poll_then_failed_witness :
  StatusRes.status Scenario.failed = Some "failed" ∧
  error (comp (exec (poll_then Scenario.t 1 Scenario.failed) Scenario.querying))
    = "Processing failed: disk full" ∧
  includes "disk full"
    (error (comp (exec (poll_then Scenario.t 1 Scenario.failed) Scenario.querying)))
    = true.
Proof.
  assert (H : StatusRes.status Scenario.failed = Some "failed") by reflexivity.
  pose proof (poll_then_failed Scenario.t Scenario.querying 1
                Scenario.failed H) as (_ & _ & _ & _ & _ & He & Hin).
  split_and!; [exact H | exact He | exact (Hin "disk full" eq_refl)].
Defined.

(** C9 at an answer with the status "processing". *)
Lemma poll_then_in_progress_witness :
  StatusRes.status Scenario.transcoding ≠ Some "completed" ∧
  StatusRes.status Scenario.transcoding ≠ Some "failed" ∧
  progress (comp (exec (poll_then Scenario.t 1 Scenario.transcoding)
                    Scenario.querying)) = 40%Z ∧
  statusText (comp (exec (poll_then Scenario.t 1 Scenario.transcoding)
                      Scenario.querying)) = "transcoding" ∧
  intervals (exec (poll_then Scenario.t 1 Scenario.transcoding) Scenario.querying)
    = intervals Scenario.querying ∧
  log (exec (poll_then Scenario.t 1 Scenario.transcoding) Scenario.querying)
    = log Scenario.querying.
Proof.
  assert (Hc : StatusRes.status Scenario.transcoding ≠ Some "completed")
    by discriminate.
  assert (Hf : StatusRes.status Scenario.transcoding ≠ Some "failed")
    by discriminate.
  pose proof (poll_then_in_progress Scenario.t Scenario.querying 1
                Scenario.transcoding Hc Hf) as (Hp & Hs & Hi & _ & _ & Hl).
  exact (conj Hc (conj Hf (conj Hp (conj Hs (conj Hi Hl))))).
Defined.

(** The amended C10 at an answer that holds no field at all. *)
Lemma poll_then_missing_fields_witness :
  progress (comp (exec (poll_then Scenario.t 1 Scenario.bare) Scenario.querying))
    = 0%Z ∧
  statusText (comp (exec (poll_then Scenario.t 1 Scenario.bare) Scenario.querying))
    = "" ∧
  intervals (exec (poll_then Scenario.t 1 Scenario.bare) Scenario.querying)
    = intervals Scenario.querying ∧
  log (exec (poll_then Scenario.t 1 Scenario.bare) Scenario.querying)
    = log Scenario.querying.
Proof.
  pose proof (poll_then_missing_fields Scenario.t Scenario.querying 1
                Scenario.bare) as (Hp & Hs & _ & Hgo).
  destruct Hgo as (Hi & _ & Hl); [discriminate..|].
  exact (conj (Hp eq_refl) (conj (Hs eq_refl) (conj Hi Hl))).
Defined.

(** C7 at a network error on the query of interval 1. *)
Lemma poll_catch_stops_polling_witness :
  error (comp (exec (poll_catch Scenario.t 1 Scenario.network_error)
                 Scenario.querying)) = "Network Error" ∧
  uploadInProgress (comp (exec (poll_catch Scenario.t 1 Scenario.network_error)
                            Scenario.querying)) = false ∧
  intervals (exec (poll_catch Scenario.t 1 Scenario.network_error)
               Scenario.querying) = ∅ ∧
  enabled (exec (poll_catch Scenario.t 1 Scenario.network_error)
             Scenario.querying) (EvTick 1) = false.
Proof.
  pose proof (poll_catch_stops_polling Scenario.t Scenario.querying 1
                Scenario.network_error)
    as (_ & He & _ & Hb & Hd & _ & _ & _ & Hnever).
  assert (Hfresh : (1 < next_handle Scenario.querying)%positive)
    by (vm_compute; reflexivity).
  destruct (Hnever Hfresh [] _ eq_refl) as [_ Hen].
  split_and!; [exact He | exact Hb | | exact Hen].
  rewrite Hd. vm_compute. reflexivity.
Defined.

(** C10 as stated fails: an answer "completed" without [progress] and
    [current_operation] is handled as an answer, and polling does not
    continue: interval 1 is cancelled. *)
Lemma bare_completed_stops_polling :
  StatusRes.progress Scenario.completed_bare = None ∧
  StatusRes.current_operation Scenario.completed_bare = None ∧
  intervals Scenario.querying !! 1%positive = Some "abc123" ∧
  intervals (exec (poll_then Scenario.t 1 Scenario.completed_bare)
               Scenario.querying) !! 1%positive = None ∧
  (∃ st, step Scenario.t Scenario.querying
           (EvStatusResolved 1 Scenario.completed_bare) = Some st ∧
         enabled st (EvTick 1) = false ∧ error (comp st) = "").
Proof.
  split_and!; try (vm_compute; reflexivity).
  eexists. split_and!; vm_compute; reflexivity.
Qed.

(** C4 at the teardown of the component while interval 1 polls. *)
Lemma cleanup_cancels_polling_witness :
  intervals Scenario.polling !! 1%positive = Some "abc123" ∧
  intervals (exec (handler Scenario.t EvUnmount;; useEffect) Scenario.polling)
    !! 1%positive = None.
Proof.
  assert (Hr : reachable Scenario.t Scenario.polling).
  { exists Scenario.accepted. vm_compute. reflexivity. }
  assert (Hi : intervals Scenario.polling !! 1%positive = Some "abc123")
    by (vm_compute; reflexivity).
  assert (Hs : step Scenario.t Scenario.polling EvUnmount
               = Some (exec (handler Scenario.t EvUnmount;; useEffect)
                         Scenario.polling))
    by (vm_compute; reflexivity).
  pose proof (cleanup_cancels_polling Scenario.t _ _ _ _ _ Hr Hi Hs
                (or_introl eq_refl)) as (_ & Hn & _).
  exact (conj Hi Hn).
Defined.

(** The single upload at the answer "completed" that comes in time. *)
Lemma single_upload_in_flight_witness :
  answered_in_time Scenario.t initial Scenario.answered ∧
  size (uploads (Scenario.from_initial Scenario.answered)) ≤ 1.
Proof.
  assert (Hr : run Scenario.t initial Scenario.answered
               = Some (Scenario.from_initial Scenario.answered))
    by (vm_compute; reflexivity).
  assert (Ha : answered_in_time Scenario.t initial Scenario.answered)
    by (vm_compute; repeat split).
  exact (conj Ha (proj1 (single_upload_in_flight Scenario.t _ _ Hr Ha))).
Defined.

(** The one interval after the upload was accepted as "abc123". *)
Lemma one_interval_polls_tracked_task_witness :
  intervals Scenario.polling = {[1%positive := "abc123"]} ∧
  taskId (comp Scenario.polling) = "abc123".
Proof.
  assert (Hr : reachable Scenario.t Scenario.polling).
  { exists Scenario.accepted. vm_compute. reflexivity. }
  assert (Hi : intervals Scenario.polling !! 1%positive = Some "abc123")
    by (vm_compute; reflexivity).
  pose proof (one_interval_polls_tracked_task Scenario.t _ _ _ Hr Hi)
    as (_ & Ha & Hiv).
  exact (conj Hiv (eq_sym Ha)).
Defined.

(** ** The further properties on the scenarios *)

(** X3 at a file of 2 GiB. *)
Lemma large_file_is_warned_and_sent_witness :
  uploadWarning (comp (exec (handleFileChange Scenario.t [Scenario.large]) Scenario.ready))
    = "You're uploading a large file. It might take a while to process." ∧
  net_calls (log (exec (handleUpload Scenario.t)
                    (exec (handleFileChange Scenario.t [Scenario.large]) Scenario.ready)))
    = [CallUploadVideo 0 Scenario.large "holiday" ""].
Proof.
  assert (Hlo : (File.size Scenario.large > 1024 ^ 3)%Z) by (vm_compute; reflexivity).
  assert (Hhi : (File.size Scenario.large ≤ 15 * 1024 ^ 3)%Z)
    by (vm_compute; discriminate).
  assert (Hb : uploadInProgress (comp Scenario.ready) = false)
    by (vm_compute; reflexivity).
  pose proof (large_file_is_warned_and_sent Scenario.t Scenario.ready
                Scenario.large [] Hlo Hhi Hb) as (Hw & _ & Hl & _).
  split; [exact Hw|]. rewrite Hl. vm_compute. reflexivity.
Defined.

(** X5 at a file of exactly 15 GiB. *)
Lemma handleUpload_starts_witness :
  (File.size Scenario.at_bound ≤ 15 * 1024 ^ 3)%Z ∧
  uploads (exec (handleUpload Scenario.t) Scenario.ready_at_bound) = {[0]} ∧
  uploadInProgress (comp (exec (handleUpload Scenario.t) Scenario.ready_at_bound))
    = true.
Proof.
  assert (Hf : file (comp Scenario.ready_at_bound) = Some Scenario.at_bound)
    by (vm_compute; reflexivity).
  assert (Hs : (File.size Scenario.at_bound ≤ 15 * 1024 ^ 3)%Z)
    by (vm_compute; discriminate).
  assert (Hb : uploadInProgress (comp Scenario.ready_at_bound) = false)
    by (vm_compute; reflexivity).
  pose proof (handleUpload_starts Scenario.t Scenario.ready_at_bound
                Scenario.at_bound Hf Hs Hb) as (_ & Hu & Hbusy & _).
  split_and!; [exact Hs| |exact Hbusy]. rewrite Hu. vm_compute. reflexivity.
Defined.


(** X7 at a 413 response that carries a detail and a message. *)
Lemma handleUpload_catch_413_witness :
  err_status Scenario.too_large = Some 413%Z ∧
  error (comp (exec (handleUpload_catch Scenario.t Scenario.too_large)
                 Scenario.uploading))
    = "File size is too large for server to process.".
Proof.
  assert (H : err_status Scenario.too_large = Some 413%Z)
    by (vm_compute; reflexivity).
  pose proof (handleUpload_catch_413 Scenario.t Scenario.uploading
                Scenario.too_large H) as (_ & He & _).
  exact (conj H He).
Defined.

(** X8 at a 422 response with a detail. *)
Lemma handleUpload_catch_other_witness :
  err_detail Scenario.rejected = Some "Unsupported video format" ∧
  error (comp (exec (handleUpload_catch Scenario.t Scenario.rejected)
                 Scenario.uploading))
    = "Unsupported video format".
Proof.
  assert (H507 : err_status Scenario.rejected ≠ Some 507%Z) by discriminate.
  assert (H413 : err_status Scenario.rejected ≠ Some 413%Z) by discriminate.
  assert (Hd : err_detail Scenario.rejected = Some "Unsupported video format")
    by reflexivity.
  pose proof (handleUpload_catch_other Scenario.t Scenario.uploading
                Scenario.rejected H507 H413) as (Hdet & _).
  split; [exact Hd|]. apply (Hdet _ Hd). discriminate.
Defined.

(** X9 at the failure of the upload that is on its way. *)
Lemma terminal_allows_next_upload_witness :
  uploadInProgress (comp Scenario.uploading) = true ∧
  uploadInProgress
    (comp (exec (handleUpload_catch Scenario.t Scenario.rejected) Scenario.uploading))
    = false ∧
  net_calls (log (exec (handleUpload Scenario.t)
                    (exec (handleUpload_catch Scenario.t Scenario.rejected)
                       Scenario.uploading)))
    = [CallUploadVideo 0 Scenario.clip "holiday" "";
       CallUploadVideo 1 Scenario.clip "holiday" ""].
Proof.
  assert (Hf : file (comp Scenario.uploading) = Some Scenario.clip)
    by (vm_compute; reflexivity).
  assert (Hs : (File.size Scenario.clip ≤ 15 * 1024 ^ 3)%Z)
    by (vm_compute; discriminate).
  pose proof (terminal_allows_next_upload Scenario.t _ Scenario.uploading
                Scenario.clip
                (EndFailure _ _ (FailUpload Scenario.t Scenario.rejected)) Hf Hs)
    as (Hb & _ & Hl).
  split_and!; [vm_compute; reflexivity|exact Hb|].
  rewrite Hl. vm_compute. reflexivity.
Defined.

(** X10 at a network error on the query of interval 1. *)
Lemma failure_opens_alert_witness :
  alert_open (comp Scenario.querying) = false ∧
  alert_open (comp (exec (poll_catch Scenario.t 1 Scenario.network_error)
                      Scenario.querying)) = true.
Proof.
  assert (Ht : ∀ key fallback : string, fallback ≠ "" → Scenario.t key fallback ≠ "")
    by (intros key fallback H; exact H).
  pose proof (failure_opens_alert Scenario.t _ Scenario.querying Ht
                (FailQuery Scenario.t 1 Scenario.network_error)) as (_ & Ha).
  split; [vm_compute; reflexivity|exact Ha].
Defined.

(** X11 at 40 percent of the transfer. *)
Lemma onProgress_switches_bars_witness :
  show_upload_progress
    (comp (exec (handleUpload_onProgress Scenario.t 40) Scenario.uploading)) = true ∧
  show_processing
    (comp (exec (handleUpload_onProgress Scenario.t 40) Scenario.uploading)) = false.
Proof.
  assert (Hb : uploadInProgress (comp Scenario.uploading) = true)
    by (vm_compute; reflexivity).
  assert (Ht : taskId (comp Scenario.uploading) = "") by (vm_compute; reflexivity).
  pose proof (onProgress_switches_bars Scenario.t Scenario.uploading 40 Hb Ht)
    as (Hu & Hp & _).
  split; [rewrite Hu|rewrite Hp]; vm_compute; reflexivity.
Defined.

(** X12 at the answer "abc123" to the upload that is on its way. *)
Lemma accepted_starts_polling_witness :
  ∃ st', step Scenario.t Scenario.uploading
           (EvUploadResolved 0 (UploadRes.mk "abc123")) = Some st' ∧
         intervals st' = {[1%positive := "abc123"]}.
Proof.
  assert (Hr : reachable Scenario.t Scenario.uploading).
  { exists Scenario.submitted. vm_compute. reflexivity. }
  assert (Hm : mounted Scenario.uploading = true) by (vm_compute; reflexivity).
  assert (Hp : 0 ∈ uploads Scenario.uploading) by (vm_compute; reflexivity).
  assert (Hne : UploadRes.task_id (UploadRes.mk "abc123") ≠ "") by discriminate.
  assert (Hnew : UploadRes.task_id (UploadRes.mk "abc123")
                 ≠ taskId (comp Scenario.uploading))
    by (vm_compute; discriminate).
  destruct (accepted_starts_polling Scenario.t Scenario.uploading 0
              (UploadRes.mk "abc123") Hr Hm Hp Hne Hnew)
    as (st' & Hs & _ & Hi & _).
  exists st'. split; [exact Hs|]. rewrite Hi. vm_compute. reflexivity.
Defined.


(** X14 on the run that polls "abc123" once. *)
Lemma never_queries_unnamed_task_witness :
  status_calls (log (Scenario.from_initial Scenario.answered))
    = [CallGetTaskStatus 1 "abc123"] ∧
  queries_of "" (log (Scenario.from_initial Scenario.answered)) = [].
Proof.
  assert (Hr : run Scenario.t initial Scenario.answered
               = Some (Scenario.from_initial Scenario.answered))
    by (vm_compute; reflexivity).
  split; [vm_compute; reflexivity|].
  exact (proj1 (never_queries_unnamed_task Scenario.t _ _ Hr)).
Defined.

(** X15 while interval 1 polls "abc123". *)
Lemma polling_shows_processing_witness :
  intervals Scenario.polling !! 1%positive = Some "abc123" ∧
  show_processing (comp Scenario.polling) = true.
Proof.
  assert (Hr : reachable Scenario.t Scenario.polling).
  { exists Scenario.accepted. vm_compute. reflexivity. }
  assert (Hi : intervals Scenario.polling !! 1%positive = Some "abc123")
    by (vm_compute; reflexivity).
  pose proof (polling_shows_processing Scenario.t _ _ _ Hr Hi) as (_ & _ & Hs).
  exact (conj Hi Hs).
Defined.

(** X16 over a submission, an empty selection and a failure. *)
Lemma file_stays_selected_witness :
  is_Some (file (comp Scenario.ready)) ∧
  is_Some (file (comp (Scenario.from_initial
                         (Scenario.filled ++ Scenario.failed_upload)))).
Proof.
  assert (Hf : is_Some (file (comp Scenario.ready))).
  { exists Scenario.clip. vm_compute. reflexivity. }
  assert (Hr : run Scenario.t Scenario.ready Scenario.failed_upload
               = Some (Scenario.from_initial
                         (Scenario.filled ++ Scenario.failed_upload)))
    by (vm_compute; reflexivity).
  exact (conj Hf (file_stays_selected Scenario.t _ _ _ Hf Hr)).
Defined.

(** X17: the busy warning, raised during the upload, is still there
    after the task completed and the alert was closed. *)
Lemma warning_stays_witness :
  uploadInProgress (comp (Scenario.from_initial
                            (Scenario.warned ++ Scenario.after_warning))) = false ∧
  uploadWarning (comp (Scenario.from_initial
                         (Scenario.warned ++ Scenario.after_warning)))
    = "Upload already in progress, please wait.".
Proof.
  assert (Hev : Forall (λ ev, writes_warning ev = false) Scenario.after_warning)
    by (repeat constructor).
  assert (Hr : run Scenario.t (Scenario.from_initial Scenario.warned)
                 Scenario.after_warning
               = Some (Scenario.from_initial
                         (Scenario.warned ++ Scenario.after_warning)))
    by (vm_compute; reflexivity).
  pose proof (warning_stays Scenario.t _ _ _ Hev Hr) as Hw.
  split; [vm_compute; reflexivity|]. rewrite Hw. vm_compute. reflexivity.
Defined.

(** X18 while the upload is on its way. *)
Lemma no_polling_during_upload_witness :
  0 ∈ uploads Scenario.uploading ∧
  intervals Scenario.uploading = ∅ ∧ queries Scenario.uploading = ∅.
Proof.
  assert (Hr : run Scenario.t initial Scenario.submitted = Some Scenario.uploading)
    by (vm_compute; reflexivity).
  assert (Ha : answered_in_time Scenario.t initial Scenario.submitted)
    by (vm_compute; repeat split).
  assert (Hp : 0 ∈ uploads Scenario.uploading) by (vm_compute; reflexivity).
  pose proof (no_polling_during_upload Scenario.t _ _ _ Hr Ha Hp) as (Hi & Hq & _).
  exact (conj Hp (conj Hi Hq)).
Defined.

(** X19 while interval 1 polls. *)
Lemma busy_while_polling_witness :
  intervals Scenario.polling ≠ ∅ ∧
  submit_disabled (comp Scenario.polling) = true.
Proof.
  assert (Hr : run Scenario.t initial Scenario.accepted = Some Scenario.polling)
    by (vm_compute; reflexivity).
  assert (Ha : answered_in_time Scenario.t initial Scenario.accepted)
    by (vm_compute; repeat split).
  assert (Hi : intervals Scenario.polling ≠ ∅).
  { intros He.
    assert (intervals Scenario.polling !! 1%positive = None) as Hl
      by (rewrite He; apply lookup_empty).
    vm_compute in Hl. discriminate Hl. }
  pose proof (busy_while_polling Scenario.t _ _ Hr Ha (or_introl Hi)) as (_ & Hd).
  exact (conj Hi Hd).
Defined.
